(** * Electric-vehicle charge optimisation: the two notebooks, embedded

    Shallow embedding of

    - [src/notebooks/08_31_Model_1_charge_profile_based_on_electricity_cost.ipynb]
      (Model 1: a linear program built with OR-Tools' [pywraplp]), and
    - [src/notebooks/09_02_Model_2_charge_profile_with_charge_dependant_battery_degradation.ipynb]
      (Model 2: a nonlinear program handed to [scipy.optimize.minimize]).

    Conventions of the embedding.

    - Python floats are modelled by the real numbers they denote ([R]);
      rounding is not modelled.  The one place where the range of binary64
      matters (overflow of [np.exp]) is treated explicitly with
      [binary64_max].
    - The module-level constants of a notebook ([T_MIN], [Q_KWH], ...) are
      the fields of the record [Globals]; each cell is a function of that
      record, and [Model1.notebook] / [Model2.notebook] hold the values the
      notebooks assign.  The two literals of [degradation_function]
      (its comment calls them the parameters a and b) are the arguments
      [a] and [b] of the cost model; the notebook's values are
      [Model2.a] and [Model2.b].
    - Hours ([T_MIN], [T_MAX]) are natural numbers; Python's [[v]*n] with
      [n <= 0] is the empty list, which truncated subtraction reproduces.
    - The two solvers are external: they are not modelled, only the
      problems handed to them and what the notebook does with the result. *)

From Stdlib Require Import Reals List Lia Lra ZArith Bool Arith Permutation.
From Stdlib Require String.
Import ListNotations String.StringSyntax.

Delimit Scope string_scope with string.

Open Scope R_scope.

(** ** Python and numpy primitives used by the notebooks *)

(** Builtin [sum]: a left fold that starts from 0. *)
Definition py_sum (l : list R) : R := fold_left Rplus l 0.

(** [[v] * n] *)
Definition py_repeat {A} (v : A) (n : nat) : list A := repeat v n.

(** [np.cumsum] *)
Fixpoint cumsum_from (acc : R) (l : list R) : list R :=
  match l with
  | [] => []
  | x :: t => (acc + x) :: cumsum_from (acc + x) t
  end.

Definition cumsum (l : list R) : list R := cumsum_from 0 l.

(** [round(v, ndigits)]: nearest multiple of [10^-ndigits], ties to even. *)
Definition round_half_even (y : R) : Z :=
  let f := Int_part y in
  let d := y - IZR f in
  if Rlt_dec d (1/2) then f
  else if Rlt_dec (1/2) d then (f + 1)%Z
  else if Z.even f then f else (f + 1)%Z.

Definition py_round (v : R) (ndigits : nat) : R :=
  IZR (round_half_even (v * 10 ^ ndigits)) / 10 ^ ndigits.

(** ** Mathematical sums used to state the properties *)

(** [slot_sum n f] is f 0 + f 1 + ... + f (n-1). *)
Fixpoint slot_sum (n : nat) (f : nat -> R) : R :=
  match n with
  | O => 0
  | S k => slot_sum k f + f k
  end.

(** Largest finite binary64 number, (2 - 2^-52) * 2^1023. *)
Definition binary64_max : R := (2 - / 2 ^ 52) * 2 ^ 1023.

(** A real result is representable as a finite float only within range. *)
Definition binary64_finite (v : R) : Prop := Rabs v <= binary64_max.

(** ** The module-level constants of a notebook *)

Record Globals := {
  ELECTRICITY_COSTS : list R;
  STATE_OF_CHARGE_T0 : R;
  STATE_OF_CHARGE_TCH : R;
  Q_KWH : R;
  CHARGE_POWER_LOWER_BOUND_KWH : R;
  CHARGE_POWER_HIGHER_BOUND_KWH : R;
  T_MIN : nat;
  T_MAX : nat
}.

Definition LOW_COST : R := 0.1377.
Definition HIGH_COST : R := 0.1781.

(** [[LOW_COST]*5 + [HIGH_COST]*4 + [LOW_COST]*10 + [HIGH_COST]*5] *)
Definition tarif_bleu : list R :=
  py_repeat LOW_COST 5 ++ py_repeat HIGH_COST 4 ++
  py_repeat LOW_COST 10 ++ py_repeat HIGH_COST 5.


(** [np.ones((n,)) * c] *)
Definition np_ones_times (n : nat) (c : R) : list R :=
  map (fun one => one * c) (repeat 1 n).

(** [arr[start:] = v] on a one-dimensional array: the entries from index
    [start] on are overwritten, the length is unchanged. *)
Definition assign_from (start : nat) (v : R) (arr : list R) : list R :=
  firstn start arr ++ map (fun _ => v) (skipn start arr).

(** [np.tri(N, M)]: the mask whose entry (i, j) tells whether [j <= i]. *)
Definition tri (N M : nat) : list (list bool) :=
  map (fun i => map (fun j => (j <=? i)%nat) (seq 0 M)) (seq 0 N).

(** [np.tril(v)] for a one-dimensional [v]: numpy takes the mask
    [tri(len v, len v)] and selects [v[j]] where the mask holds and 0
    elsewhere, broadcasting [v] along the rows. *)
Definition tril (v : list Z) : list (list Z) :=
  map (fun mask_row =>
         map (fun '(keep, e) => if (keep : bool) then e else 0%Z)
             (combine mask_row v))
      (tri (length v) (length v)).

Fixpoint chunks (rows cols : nat) (flat : list Z) : list (list Z) :=
  match rows with
  | O => []
  | S r => firstn cols flat :: chunks r cols (skipn cols flat)
  end.

(** [arr.reshape((rows, cols))]: same entries in row-major order. *)
Definition reshape (rows cols : nat) (arr : list (list Z)) : list (list Z) :=
  chunks rows cols (concat arr).

(** [A @ x] for an integer matrix given by rows and a real vector. *)
Definition matvec (A : list (list Z)) (x : list R) : list R :=
  map (fun row => py_sum (map (fun '(c, v) => IZR c * v) (combine row x))) A.

(** What "optimal" means for either solver. *)
Definition minimizes (feasible : list R -> Prop) (cost : list R -> R)
    (p : list R) : Prop :=
  feasible p /\ forall q, feasible q -> cost p <= cost q.

(** ** Model 2 (notebook 09_02) *)

Module Model2.

(** Cell 2. *)
Definition notebook : Globals := {|
  ELECTRICITY_COSTS := tarif_bleu;
  STATE_OF_CHARGE_T0 := 0.30;
  STATE_OF_CHARGE_TCH := 0.90;
  Q_KWH := 30;
  CHARGE_POWER_LOWER_BOUND_KWH := -6.6;
  CHARGE_POWER_HIGHER_BOUND_KWH := 6.6;
  T_MIN := 1;
  T_MAX := 22
|}.

(** [10**-5] and [0.05], the literals of [degradation_function]. *)
Definition a : R := / 10 ^ 5.
Definition b : R := 0.05.

(** [scipy.optimize.Bounds(lb, ub)] stands for [lb <= x <= ub], entry by
    entry. *)
Record Bounds := { bounds_lb : list R; bounds_ub : list R }.

(** [scipy.optimize.LinearConstraint(A, lb, ub)] stands for
    [lb <= A @ x <= ub], row by row. *)
Record LinearConstraint := {
  lc_A : list (list Z);
  lc_lb : list R;
  lc_ub : list R
}.

Definition Bounds_holds (B : Bounds) (x : list R) : Prop :=
  Forall2 Rle (bounds_lb B) x /\ Forall2 Rle x (bounds_ub B).

Definition LinearConstraint_holds (C : LinearConstraint) (x : list R) : Prop :=
  Forall2 Rle (lc_lb C) (matvec (lc_A C) x) /\
  Forall2 Rle (matvec (lc_A C) x) (lc_ub C).

(** The fields of scipy's [OptimizeResult] the notebook could read.  For
    [trust-constr], [status] is 0 when the iteration budget is exhausted,
    1 when the [gtol] condition is met, 2 for [xtol], 3 for a callback
    stop. *)
Record OptimizeResult := { x : list R; status : Z }.

(** What cell 6 prints, line by line. *)
Record Printed := {
  heading : String.string;
  solution_line : list R;
  charge_heading : String.string;
  charge_line : list R;
  balance_line : R * R * R
}.

(** [m = np.tril([1]*24).reshape((24,24))] *)
Definition m : list (list Z) := reshape 24 24 (tril (py_repeat 1%Z 24)).

(** [p0 = [1]*24] *)
Definition p0 : list R := py_repeat 1 24.

Section Cells.

Variable g : Globals.
Variables a b : R.

(** [BATTERY_COST = Q_KWH*156*0.84] *)
Definition BATTERY_COST : R := Q_KWH g * 156 * 0.84.

(** [(10**-5)*(np.exp(0.05*abs(p_)/CHARGE_POWER_HIGHER_BOUND_KWH))] *)
Definition degradation_function (p_ : R) : R :=
  a * exp (b * Rabs p_ / CHARGE_POWER_HIGHER_BOUND_KWH g).

(** [sum(p_*ep for p_,ep in zip(p, ELECTRICITY_COSTS))] *)
Definition cost_electricity (p : list R) : R :=
  py_sum (map (fun '(p_, ep) => p_ * ep) (combine p (ELECTRICITY_COSTS g))).

(** [BATTERY_COST*sum(degradation_function(p_) for p_ in p)] *)
Definition cost_degradation (p : list R) : R :=
  BATTERY_COST * py_sum (map degradation_function p).

Definition cost_charge (p : list R) : R :=
  let ce := cost_electricity p in
  let cd := cost_degradation p in
  ce + cd.

(** The first [lb] and [ub] of cell 4 (the box bounds):
    [[0]*T_MIN + [bound]*(T_MAX-T_MIN) + [0]*(24-T_MAX)]. *)
Definition lb_box : list R :=
  py_repeat 0 (T_MIN g) ++
  py_repeat (CHARGE_POWER_LOWER_BOUND_KWH g) (T_MAX g - T_MIN g) ++
  py_repeat 0 (24 - T_MAX g).

Definition ub_box : list R :=
  py_repeat 0 (T_MIN g) ++
  py_repeat (CHARGE_POWER_HIGHER_BOUND_KWH g) (T_MAX g - T_MIN g) ++
  py_repeat 0 (24 - T_MAX g).

Definition bounds : Bounds := {| bounds_lb := lb_box; bounds_ub := ub_box |}.

(** The second [lb] and [ub] of cell 4 (the cumulative charge):
    [lb = np.ones((24,))*(-STATE_OF_CHARGE_T0*Q_KWH)] followed by
    [lb[T_MAX:] = (STATE_OF_CHARGE_TCH-STATE_OF_CHARGE_T0)*Q_KWH], and
    [ub = np.ones((24,))*((1-STATE_OF_CHARGE_T0)*Q_KWH)]. *)
Definition lb_soc : list R :=
  assign_from (T_MAX g)
    ((STATE_OF_CHARGE_TCH g - STATE_OF_CHARGE_T0 g) * Q_KWH g)
    (np_ones_times 24 (- STATE_OF_CHARGE_T0 g * Q_KWH g)).

Definition ub_soc : list R :=
  np_ones_times 24 ((1 - STATE_OF_CHARGE_T0 g) * Q_KWH g).

Definition linear_constraint : LinearConstraint :=
  {| lc_A := m; lc_lb := lb_soc; lc_ub := ub_soc |}.

(** The feasible region handed to the solver. *)
Definition feasible (p : list R) : Prop :=
  Bounds_holds bounds p /\ LinearConstraint_holds linear_constraint p.

(** Cell 5: [res = minimize(cost_charge, p0, method='trust-constr',
    constraints=[linear_constraint], options={'verbose': 1},
    bounds=bounds)].  The solver is the parameter [minimize]. *)
Definition Solver : Type :=
  (list R -> R) -> list R -> list LinearConstraint -> Bounds -> OptimizeResult.

Definition res (minimize : Solver) : OptimizeResult :=
  minimize cost_charge p0 [linear_constraint] bounds.

(** Cell 6, the printing part. *)
Definition cell6 (res : OptimizeResult) : Printed :=
  let solution := map (fun rx => py_round rx 2) (x res) in
  {| heading := "Optimal charge profile (kWh):"%string;
     solution_line := solution;
     charge_heading := "Resulting vehicle charge (kWh)"%string;
     charge_line :=
       map (fun c => c + Q_KWH g * STATE_OF_CHARGE_T0 g) (cumsum solution);
     balance_line :=
       (py_round (cost_charge (x res)) 1,
        py_round (cost_electricity (x res)) 1,
        py_round (cost_degradation (x res)) 1) |}.

(** Cells 4 to 6 run in order. *)
Definition pipeline (minimize : Solver) : Printed := cell6 (res minimize).

End Cells.

End Model2.

(** ** Model 1 (notebook 08_31) *)

Module Model1.

(** Cell 2: the same constants, with a zero lower power bound. *)
Definition notebook : Globals := {|
  ELECTRICITY_COSTS := tarif_bleu;
  STATE_OF_CHARGE_T0 := 0.30;
  STATE_OF_CHARGE_TCH := 0.90;
  Q_KWH := 30;
  CHARGE_POWER_LOWER_BOUND_KWH := 0;
  CHARGE_POWER_HIGHER_BOUND_KWH := 6.6;
  T_MIN := 1;
  T_MAX := 22
|}.

(** [solver.NumVar(lb, ub, 'p{}'.format(i))]; the name is kept as the
    number [i], which is also the rank of the variable in the solver. *)
Record NumVar := { var_lb : R; var_ub : R; var_name : nat }.

(** [solver.Constraint(lb, ub, name)]: a row [lb <= sum coef*var <= ub]
    whose coefficients are all 0 until [SetCoefficient] is called. *)
Record Constraint := {
  ct_lb : R;
  ct_ub : R;
  ct_name : String.string;
  ct_coef : nat -> R
}.

Definition new_Constraint (lb ub : R) (name : String.string) : Constraint :=
  {| ct_lb := lb; ct_ub := ub; ct_name := name; ct_coef := fun _ => 0 |}.

Definition SetCoefficient (ct : Constraint) (variable : NumVar) (c : R)
    : Constraint :=
  {| ct_lb := ct_lb ct; ct_ub := ct_ub ct; ct_name := ct_name ct;
     ct_coef := fun j =>
       if (j =? var_name variable)%nat then c else ct_coef ct j |}.

(** [solver.Objective()], with its own [SetCoefficient] and
    [SetMinimization]. *)
Record Objective := { obj_coef : nat -> R; obj_minimization : bool }.

Definition new_Objective : Objective :=
  {| obj_coef := fun _ => 0; obj_minimization := false |}.

Definition Objective_SetCoefficient (o : Objective) (variable : NumVar)
    (c : R) : Objective :=
  {| obj_coef := fun j =>
       if (j =? var_name variable)%nat then c else obj_coef o j;
     obj_minimization := obj_minimization o |}.

Definition SetMinimization (o : Objective) : Objective :=
  {| obj_coef := obj_coef o; obj_minimization := true |}.

(** [enumerate(l)] *)
Definition enumerate {A} (l : list A) : list (nat * A) :=
  combine (seq 0 (length l)) l.

(** Value of a linear form at a solution (one value per variable). *)
Definition linear_value (coef : nat -> R) (vars : list NumVar)
    (sol : list R) : R :=
  py_sum (map (fun '(v, s) => coef (var_name v) * s) (combine vars sol)).

Section Cell4.

Variable g : Globals.

(** The body of the loop [for i in range(24)]: the variable [p]. *)
Definition new_variable (i : nat) : NumVar :=
  if (i <? T_MIN g)%nat || (T_MAX g <=? i)%nat
  then {| var_lb := 0; var_ub := 0; var_name := i |}
  else {| var_lb := CHARGE_POWER_LOWER_BOUND_KWH g;
          var_ub := CHARGE_POWER_HIGHER_BOUND_KWH g;
          var_name := i |}.

(** The list [variables] once the loop has run. *)
Definition variables : list NumVar := map new_variable (seq 0 24).

(** The charge delivered before [T_MAX]: coefficient 1 on
    [variables[:T_MAX]]. *)
Definition ct_charge_vehicle_before_tmax : Constraint :=
  fold_left (fun ct variable => SetCoefficient ct variable 1)
    (firstn (T_MAX g) variables)
    (new_Constraint
       (Q_KWH g * (STATE_OF_CHARGE_TCH g - STATE_OF_CHARGE_T0 g))
       (Q_KWH g * (1 - STATE_OF_CHARGE_T0 g))
       "ct_charge_vehicle_before_tmax"%string).

(** The body of [for i in range(1,25)]: coefficient 1 on
    [variables[:i]]. *)
Definition ct_bounded_charge (i : nat) : Constraint :=
  fold_left (fun ct variable => SetCoefficient ct variable 1)
    (firstn i variables)
    (new_Constraint
       (- Q_KWH g * STATE_OF_CHARGE_T0 g)
       (Q_KWH g * (1 - STATE_OF_CHARGE_T0 g))
       "ct_bounded_charge"%string).

(** All the rows the solver holds, in creation order. *)
Definition constraints : list Constraint :=
  ct_charge_vehicle_before_tmax :: map ct_bounded_charge (seq 1 24).

(** [objective.SetCoefficient(variable, ELECTRICITY_COSTS[i])] for each
    [i, variable] of [enumerate(variables)], then [SetMinimization()].
    (The notebook has 24 prices; with fewer, [ELECTRICITY_COSTS[i]] would
    raise, which the default 0 of [nth] does not show.) *)
Definition objective : Objective :=
  SetMinimization
    (fold_left
       (fun o '(i, variable) =>
          Objective_SetCoefficient o variable (nth i (ELECTRICITY_COSTS g) 0))
       (enumerate variables) new_Objective).

(** The feasible region of the linear program. *)
Definition feasible (sol : list R) : Prop :=
  Forall2 (fun v s => var_lb v <= s <= var_ub v) variables sol /\
  Forall (fun ct =>
            ct_lb ct <= linear_value (ct_coef ct) variables sol <= ct_ub ct)
         constraints.

(** [objective.Value()] at a solution. *)
Definition objective_value (sol : list R) : R :=
  linear_value (obj_coef objective) variables sol.

End Cell4.

End Model1.

(** * Properties *)

(** ** General facts on sums and lists *)

Lemma fold_left_Rplus_acc (l : list R) (acc : R) :
  fold_left Rplus l acc = acc + fold_left Rplus l 0.
Proof.
  revert acc. induction l as [|e t IH]; intro acc; simpl.
  - ring.
  - rewrite (IH (acc + e)), (IH (0 + e)). ring.
Qed.

Lemma py_sum_cons (e : R) (t : list R) : py_sum (e :: t) = e + py_sum t.
Proof.
  unfold py_sum. simpl. rewrite fold_left_Rplus_acc. ring.
Qed.

Lemma py_sum_app (l1 l2 : list R) : py_sum (l1 ++ l2) = py_sum l1 + py_sum l2.
Proof.
  unfold py_sum. rewrite fold_left_app, fold_left_Rplus_acc. reflexivity.
Qed.

Lemma slot_sum_ext (n : nat) (f h : nat -> R) :
  (forall i, (i < n)%nat -> f i = h i) -> slot_sum n f = slot_sum n h.
Proof.
  induction n as [|n IH]; intro E; simpl.
  - reflexivity.
  - rewrite IH by (intros; apply E; lia). rewrite (E n) by lia. reflexivity.
Qed.

Lemma slot_sum_shift (n : nat) (f : nat -> R) :
  slot_sum (S n) f = f O + slot_sum n (fun i => f (S i)).
Proof.
  induction n as [|n IH].
  - simpl. ring.
  - change (slot_sum (S (S n)) f) with (slot_sum (S n) f + f (S n)).
    rewrite IH. simpl. ring.
Qed.

Lemma slot_sum_plus (n k : nat) (f : nat -> R) :
  slot_sum (n + k) f = slot_sum n f + slot_sum k (fun i => f (n + i)%nat).
Proof.
  induction k as [|k IH].
  - rewrite Nat.add_0_r. simpl. ring.
  - rewrite Nat.add_succ_r. simpl. rewrite IH. ring.
Qed.

Lemma slot_sum_le (n : nat) (f h : nat -> R) :
  (forall i, (i < n)%nat -> f i <= h i) -> slot_sum n f <= slot_sum n h.
Proof.
  induction n as [|n IH]; intro E; simpl.
  - lra.
  - assert (slot_sum n f <= slot_sum n h) by (apply IH; intros; apply E; lia).
    assert (f n <= h n) by (apply E; lia). lra.
Qed.

Lemma slot_sum_const (n : nat) (c : R) : slot_sum n (fun _ => c) = INR n * c.
Proof.
  induction n as [|n IH].
  - simpl. ring.
  - rewrite S_INR. simpl. rewrite IH. ring.
Qed.

Lemma slot_sum_zero (n : nat) (f : nat -> R) :
  (forall i, (i < n)%nat -> f i = 0) -> slot_sum n f = 0.
Proof.
  intro E. rewrite (slot_sum_ext n f (fun _ => 0) E), slot_sum_const. ring.
Qed.

Lemma slot_sum_pos (n : nat) (f : nat -> R) :
  (0 < n)%nat -> (forall i, (i < n)%nat -> 0 < f i) -> 0 < slot_sum n f.
Proof.
  induction n as [|n IH]; intros Hn Hf.
  - lia.
  - simpl. destruct n as [|n].
    + simpl. specialize (Hf O ltac:(lia)). lra.
    + assert (0 < slot_sum (S n) f) by (apply IH; [lia | intros; apply Hf; lia]).
      specialize (Hf (S n) ltac:(lia)). lra.
Qed.

(** Python's [sum] over a list is the sum of its entries taken by index. *)
Lemma py_sum_slots (l : list R) :
  py_sum l = slot_sum (length l) (fun i => nth i l 0).
Proof.
  induction l as [|e t IH].
  - reflexivity.
  - rewrite py_sum_cons.
    change (length (e :: t)) with (S (length t)).
    rewrite slot_sum_shift. simpl. rewrite IH. reflexivity.
Qed.

Lemma nth_map_in {A} (f : A -> R) (l : list A) (d : A) (i : nat) :
  (i < length l)%nat -> nth i (map f l) 0 = f (nth i l d).
Proof.
  intro H. rewrite (nth_indep _ 0 (f d)) by (rewrite length_map; exact H).
  apply map_nth.
Qed.

Lemma nth_combine_in {A B} (l : list A) (l' : list B) (d : A) (d' : B) :
  forall i, (i < length l)%nat -> (i < length l')%nat ->
  nth i (combine l l') (d, d') = (nth i l d, nth i l' d').
Proof.
  revert l'. induction l as [|e t IH]; intros [|e' t'] i Hi Hi'; simpl in *;
    try lia.
  destruct i as [|i]; [reflexivity | apply IH; lia].
Qed.

(** A generator over [zip(l, l')] summed with [sum]. *)
Lemma py_sum_zip {A B} (f : A * B -> R) (l : list A) (l' : list B)
    (d : A) (d' : B) :
  py_sum (map f (combine l l')) =
  slot_sum (Nat.min (length l) (length l'))
           (fun i => f (nth i l d, nth i l' d')).
Proof.
  rewrite py_sum_slots, length_map, length_combine.
  apply slot_sum_ext. intros i Hi.
  rewrite (nth_map_in f _ (d, d')) by (rewrite length_combine; exact Hi).
  rewrite nth_combine_in by lia. reflexivity.
Qed.

(** ** The cost model *)

Lemma cost_electricity_slots (g : Globals) (p : list R) :
  Model2.cost_electricity g p =
  slot_sum (Nat.min (length p) (length (ELECTRICITY_COSTS g)))
           (fun i => nth i p 0 * nth i (ELECTRICITY_COSTS g) 0).
Proof.
  unfold Model2.cost_electricity.
  rewrite (py_sum_zip _ _ _ 0 0). reflexivity.
Qed.

Lemma cost_degradation_slots (g : Globals) (a b : R) (p : list R) :
  Model2.cost_degradation g a b p =
  Model2.BATTERY_COST g *
  slot_sum (length p) (fun i => Model2.degradation_function g a b (nth i p 0)).
Proof.
  unfold Model2.cost_degradation. f_equal.
  rewrite py_sum_slots, length_map.
  apply slot_sum_ext. intros i Hi. apply nth_map_in. exact Hi.
Qed.

Lemma degradation_function_pos (g : Globals) (a b p : R) :
  0 < a -> 0 < Model2.degradation_function g a b p.
Proof.
  intro Ha. unfold Model2.degradation_function.
  apply Rmult_lt_0_compat; [exact Ha | apply exp_pos].
Qed.

(** C3.  In the notebook, [degradation_function(p)] is
    [1e-5 * exp(0.05 * |p| / 6.6)] for every real [p], and
    [cost_degradation(profile)] is [BATTERY_COST] (which is 3931.2) times the
    sum over the slots of the profile of [degradation_function(profile[i])];
    for a 24-vector these are the slots 0..23. *)
Theorem degradation_cost_form :
  (forall p : R,
     Model2.degradation_function Model2.notebook Model2.a Model2.b p =
     1e-5 * exp (0.05 * Rabs p / 6.6)) /\
  (forall profile : list R,
     Model2.cost_degradation Model2.notebook Model2.a Model2.b profile =
     Model2.BATTERY_COST Model2.notebook *
     slot_sum (length profile)
       (fun i => Model2.degradation_function Model2.notebook Model2.a
                   Model2.b (nth i profile 0))) /\
  Model2.BATTERY_COST Model2.notebook = 3931.2.
Proof.
  split; [|split].
  - intro p. unfold Model2.degradation_function, Model2.a, Model2.b. simpl.
    replace (/ (10 * (10 * (10 * (10 * (10 * 1)))))) with 1e-5 by lra.
    reflexivity.
  - intro profile. apply cost_degradation_slots.
  - unfold Model2.BATTERY_COST. simpl. lra.
Qed.

(** C6.  For every 24-vector (and the 24 prices of the notebook, or any
    other 24 prices) [cost_charge] is exactly [cost_electricity] plus
    [cost_degradation], and [cost_electricity] is the sum over the 24 slots
    of [profile[i] * price[i]]. *)
Theorem cost_decomposition (g : Globals) (a b : R) (profile : list R) :
  length (ELECTRICITY_COSTS g) = 24%nat ->
  length profile = 24%nat ->
  Model2.cost_charge g a b profile =
    Model2.cost_electricity g profile + Model2.cost_degradation g a b profile /\
  Model2.cost_electricity g profile =
    slot_sum 24 (fun i => nth i profile 0 * nth i (ELECTRICITY_COSTS g) 0).
Proof.
  intros Hc Hp. split.
  - reflexivity.
  - rewrite cost_electricity_slots, Hc, Hp. reflexivity.
Qed.

Lemma cost_decomposition_witness :
  Model2.cost_charge Model2.notebook Model2.a Model2.b Model2.p0 =
    Model2.cost_electricity Model2.notebook Model2.p0 +
    Model2.cost_degradation Model2.notebook Model2.a Model2.b Model2.p0 /\
  Model2.cost_electricity Model2.notebook Model2.p0 =
    slot_sum 24
      (fun i => nth i Model2.p0 0 *
                nth i (ELECTRICITY_COSTS Model2.notebook) 0).
Proof.
  apply (cost_decomposition Model2.notebook Model2.a Model2.b Model2.p0);
    reflexivity.
Defined.

(** C10.  With 24 prices and a vector [p] of more than 24 entries,
    [cost_electricity(p)] is [cost_electricity] of the first 24 entries
    (the [zip] drops the others), while [cost_degradation(p)] sums the
    degradation term over every entry of [p], so that it exceeds the cost of
    the first 24 entries by the terms of the extra ones.  Both functions
    return a number: neither has a length check. *)
Theorem wrong_length_inputs (g : Globals) (a b : R) (p : list R) :
  length (ELECTRICITY_COSTS g) = 24%nat ->
  (24 < length p)%nat ->
  Model2.cost_electricity g p = Model2.cost_electricity g (firstn 24 p) /\
  Model2.cost_degradation g a b p =
    Model2.BATTERY_COST g *
    slot_sum (length p)
      (fun i => Model2.degradation_function g a b (nth i p 0)) /\
  Model2.cost_degradation g a b p =
    Model2.cost_degradation g a b (firstn 24 p) +
    Model2.BATTERY_COST g *
    slot_sum (length p - 24)
      (fun i => Model2.degradation_function g a b (nth (24 + i) p 0)).
Proof.
  intros Hc Hp. split; [|split].
  - unfold Model2.cost_electricity.
    rewrite (combine_firstn_r p (ELECTRICITY_COSTS g)), Hc. reflexivity.
  - apply cost_degradation_slots.
  - rewrite <- (firstn_skipn 24 p) at 1.
    unfold Model2.cost_degradation.
    rewrite map_app, py_sum_app, Rmult_plus_distr_l. f_equal. f_equal.
    rewrite py_sum_slots, length_map, length_skipn.
    apply slot_sum_ext. intros i Hi.
    rewrite (nth_map_in _ _ 0) by (rewrite length_skipn; exact Hi).
    rewrite nth_skipn. reflexivity.
Qed.

Lemma wrong_length_inputs_witness :
  Model2.cost_electricity Model2.notebook (repeat 1 25) =
    Model2.cost_electricity Model2.notebook (firstn 24 (repeat 1 25)) /\
  Model2.cost_degradation Model2.notebook Model2.a Model2.b (repeat 1 25) =
    Model2.BATTERY_COST Model2.notebook *
    slot_sum (length (repeat 1 25))
      (fun i => Model2.degradation_function Model2.notebook Model2.a
                  Model2.b (nth i (repeat 1 25) 0)) /\
  Model2.cost_degradation Model2.notebook Model2.a Model2.b (repeat 1 25) =
    Model2.cost_degradation Model2.notebook Model2.a Model2.b
      (firstn 24 (repeat 1 25)) +
    Model2.BATTERY_COST Model2.notebook *
    slot_sum (length (repeat 1 25) - 24)
      (fun i => Model2.degradation_function Model2.notebook Model2.a
                  Model2.b (nth (24 + i) (repeat 1 25) 0)).
Proof.
  apply (wrong_length_inputs Model2.notebook Model2.a Model2.b (repeat 1 25)).
  - reflexivity.
  - simpl. lia.
Defined.

(** ** The constraint model of Model 2 *)

Lemma nth_repeat_lt {A} (v d : A) (n k : nat) :
  (k < n)%nat -> nth k (repeat v n) d = v.
Proof.
  intro H. rewrite (nth_indep _ d v) by (rewrite repeat_length; exact H).
  apply nth_repeat.
Qed.

Lemma nth_np_ones_times (n k : nat) (c : R) :
  (k < n)%nat -> nth k (np_ones_times n c) 0 = c.
Proof.
  intro H. unfold np_ones_times.
  rewrite (nth_map_in _ _ 0) by (rewrite repeat_length; exact H).
  rewrite nth_repeat_lt by exact H. ring.
Qed.

Lemma length_np_ones_times (n : nat) (c : R) : length (np_ones_times n c) = n.
Proof. unfold np_ones_times. rewrite length_map. apply repeat_length. Qed.

Lemma length_assign_from (start : nat) (v : R) (arr : list R) :
  length (assign_from start v arr) = length arr.
Proof.
  unfold assign_from.
  rewrite length_app, length_map, length_firstn, length_skipn. lia.
Qed.

(** A slice assignment changes exactly the entries from [start] on. *)
Lemma nth_assign_from (start : nat) (v : R) (arr : list R) (k : nat) :
  (k < length arr)%nat ->
  nth k (assign_from start v arr) 0 =
  if (k <? start)%nat then nth k arr 0 else v.
Proof.
  intro Hk. unfold assign_from.
  destruct (k <? start)%nat eqn:E.
  - apply Nat.ltb_lt in E.
    rewrite app_nth1 by (rewrite length_firstn; lia).
    rewrite nth_firstn. apply Nat.ltb_lt in E. rewrite E. reflexivity.
  - apply Nat.ltb_ge in E.
    rewrite app_nth2 by (rewrite length_firstn; lia).
    rewrite length_firstn.
    rewrite (nth_map_in _ _ 0) by (rewrite length_skipn; lia).
    reflexivity.
Qed.

Lemma lb_soc_row (g : Globals) (k : nat) :
  (k < 24)%nat ->
  nth k (Model2.lb_soc g) 0 =
  if (k <? T_MAX g)%nat
  then - STATE_OF_CHARGE_T0 g * Q_KWH g
  else (STATE_OF_CHARGE_TCH g - STATE_OF_CHARGE_T0 g) * Q_KWH g.
Proof.
  intro Hk. unfold Model2.lb_soc.
  rewrite nth_assign_from by (rewrite length_np_ones_times; exact Hk).
  rewrite nth_np_ones_times by exact Hk. reflexivity.
Qed.

Lemma ub_soc_row (g : Globals) (k : nat) :
  (k < 24)%nat ->
  nth k (Model2.ub_soc g) 0 = (1 - STATE_OF_CHARGE_T0 g) * Q_KWH g.
Proof. intro Hk. apply nth_np_ones_times. exact Hk. Qed.

Lemma length_lb_soc (g : Globals) : length (Model2.lb_soc g) = 24%nat.
Proof.
  unfold Model2.lb_soc. rewrite length_assign_from. apply length_np_ones_times.
Qed.

Lemma length_ub_soc (g : Globals) : length (Model2.ub_soc g) = 24%nat.
Proof. apply length_np_ones_times. Qed.




(** The matrix [m], row by row. *)
Lemma m_row (k : nat) :
  (k < 24)%nat ->
  nth k Model2.m [] = repeat 1%Z (S k) ++ repeat 0%Z (23 - k).
Proof.
  intro Hk.
  do 24 (destruct k as [|k]; [reflexivity|]). lia.
Qed.

Lemma length_m : length Model2.m = 24%nat.
Proof. reflexivity. Qed.

Lemma dot_zeros (n : nat) (v : list R) :
  py_sum (map (fun '(c, e) => IZR c * e) (combine (repeat 0%Z n) v)) = 0.
Proof.
  revert v. induction n as [|n IH]; intros [|e t]; simpl; try reflexivity.
  rewrite py_sum_cons, IH. ring.
Qed.

(** A row of ones followed by zeros takes a prefix sum. *)
Lemma dot_ones_zeros (n z : nat) (v : list R) :
  py_sum (map (fun '(c, e) => IZR c * e)
              (combine (repeat 1%Z n ++ repeat 0%Z z) v)) =
  slot_sum n (fun i => nth i v 0).
Proof.
  revert v. induction n as [|n IH]; intro v.
  - simpl. apply dot_zeros.
  - destruct v as [|e t].
    + simpl combine. symmetry. apply slot_sum_zero.
      intros [|i] _; reflexivity.
    + rewrite slot_sum_shift. simpl. rewrite py_sum_cons, IH. ring.
Qed.

Lemma matvec_m_row (p : list R) (k : nat) :
  (k < 24)%nat ->
  nth k (matvec Model2.m p) 0 = slot_sum (S k) (fun i => nth i p 0).
Proof.
  intro Hk. unfold matvec.
  rewrite (nth_map_in _ _ []) by (rewrite length_m; exact Hk).
  rewrite m_row by exact Hk. apply dot_ones_zeros.
Qed.

(** C2.  [m] is the 24x24 lower-triangular matrix of ones: entry (i, j) is
    1 for [j <= i] and 0 otherwise; and for every real 24-vector and every
    row [k] of 0..23, [(m @ profile)[k]] is
    [profile[0] + ... + profile[k]]. *)
Theorem cumulative_sum_matrix :
  (length Model2.m = 24%nat /\
   forall i j : nat, (i < 24)%nat -> (j < 24)%nat ->
     length (nth i Model2.m []) = 24%nat /\
     nth j (nth i Model2.m []) 0%Z = if (j <=? i)%nat then 1%Z else 0%Z) /\
  (forall profile : list R, length profile = 24%nat ->
   forall k : nat, (k < 24)%nat ->
     nth k (matvec Model2.m profile) 0 =
     slot_sum (S k) (fun i => nth i profile 0)).
Proof.
  split; [split|].
  - reflexivity.
  - intros i j Hi Hj. rewrite m_row by exact Hi. split.
    + rewrite length_app, !repeat_length. lia.
    + destruct (j <=? i)%nat eqn:E.
      * apply Nat.leb_le in E.
        rewrite app_nth1 by (rewrite repeat_length; lia).
        apply nth_repeat_lt. lia.
      * apply Nat.leb_gt in E.
        rewrite app_nth2 by (rewrite repeat_length; lia).
        apply nth_repeat.
  - intros profile _ k Hk. apply matvec_m_row. exact Hk.
Qed.

Lemma cumulative_sum_matrix_witness :
  nth 2 (nth 3 Model2.m []) 0%Z = 1%Z /\
  nth 5 (matvec Model2.m Model2.p0) 0 =
    slot_sum 6 (fun i => nth i Model2.p0 0).
Proof.
  destruct cumulative_sum_matrix as [[_ Hm] Hv]. split.
  - apply (Hm 3%nat 2%nat); lia.
  - apply (Hv Model2.p0 eq_refl 5%nat). lia.
Defined.

(** ** Box bounds *)

(** [[0]*T_MIN + [v]*(T_MAX-T_MIN) + [0]*(24-T_MAX)], entry by entry. *)
Lemma nth_window (t_min t_max : nat) (v : R) (i : nat) :
  nth i (py_repeat 0 t_min ++ py_repeat v (t_max - t_min) ++
         py_repeat 0 (24 - t_max)) 0 =
  if (i <? t_min)%nat || (t_max <=? i)%nat then 0 else v.
Proof.
  unfold py_repeat.
  destruct (i <? t_min)%nat eqn:E1; simpl orb.
  - apply Nat.ltb_lt in E1.
    rewrite app_nth1 by (rewrite repeat_length; exact E1).
    apply nth_repeat.
  - apply Nat.ltb_ge in E1.
    rewrite app_nth2 by (rewrite repeat_length; exact E1).
    rewrite repeat_length.
    destruct (t_max <=? i)%nat eqn:E2.
    + apply Nat.leb_le in E2.
      rewrite app_nth2 by (rewrite repeat_length; lia).
      apply nth_repeat.
    + apply Nat.leb_gt in E2.
      rewrite app_nth1 by (rewrite repeat_length; lia).
      apply nth_repeat_lt. lia.
Qed.

Lemma length_window (t_min t_max : nat) (v : R) :
  (t_min <= t_max <= 24)%nat ->
  length (py_repeat 0 t_min ++ py_repeat v (t_max - t_min) ++
          py_repeat 0 (24 - t_max)) = 24%nat.
Proof.
  intro H. unfold py_repeat. rewrite !length_app, !repeat_length. lia.
Qed.

Lemma nth_map_seq {A} (f : nat -> A) (n i : nat) (d : A) :
  (i < n)%nat -> nth i (map f (seq 0 n)) d = f i.
Proof.
  intro Hi.
  rewrite (nth_indep _ d (f O)) by (rewrite length_map, length_seq; exact Hi).
  rewrite (map_nth f), seq_nth by exact Hi. reflexivity.
Qed.

Lemma nth_variables (g : Globals) (i : nat) (d : Model1.NumVar) :
  (i < 24)%nat ->
  nth i (Model1.variables g) d =
  if (i <? T_MIN g)%nat || (T_MAX g <=? i)%nat
  then {| Model1.var_lb := 0; Model1.var_ub := 0; Model1.var_name := i |}
  else {| Model1.var_lb := CHARGE_POWER_LOWER_BOUND_KWH g;
          Model1.var_ub := CHARGE_POWER_HIGHER_BOUND_KWH g;
          Model1.var_name := i |}.
Proof.
  intro Hi. unfold Model1.variables.
  rewrite nth_map_seq by exact Hi. reflexivity.
Qed.

Lemma length_variables (g : Globals) : length (Model1.variables g) = 24%nat.
Proof. unfold Model1.variables. rewrite length_map. apply length_seq. Qed.

Lemma Forall2_nth_iff {A B} (P : A -> B -> Prop) (da : A) (db : B)
    (l1 : list A) (l2 : list B) :
  Forall2 P l1 l2 <->
  length l1 = length l2 /\
  forall i, (i < length l1)%nat -> P (nth i l1 da) (nth i l2 db).
Proof.
  split.
  - induction 1 as [|e1 e2 t1 t2 He _ [IHl IHn]]; simpl.
    + split; [reflexivity | intros i Hi; lia].
    + split; [congruence|]. intros [|i] Hi; [exact He | apply IHn; lia].
  - revert l2. induction l1 as [|e1 t1 IH]; intros [|e2 t2] [Hl Hn];
      simpl in Hl; try discriminate.
    + constructor.
    + constructor.
      * apply (Hn O). simpl. lia.
      * apply IH. split; [congruence|].
        intros i Hi. apply (Hn (S i)). simpl. lia.
Qed.

Lemma Forall2_Rle_nth (l1 l2 : list R) :
  Forall2 Rle l1 l2 <->
  length l1 = length l2 /\
  forall i, (i < length l1)%nat -> nth i l1 0 <= nth i l2 0.
Proof. apply Forall2_nth_iff. Qed.

(** The box of Model 2 is a conjunction of one condition per slot. *)
Lemma Bounds_holds_slots (g : Globals) (p : list R) :
  (T_MIN g <= T_MAX g <= 24)%nat ->
  Model2.Bounds_holds (Model2.bounds g) p <->
  length p = 24%nat /\
  forall i, (i < 24)%nat ->
    nth i (Model2.lb_box g) 0 <= nth i p 0 <= nth i (Model2.ub_box g) 0.
Proof.
  intro Hw. unfold Model2.Bounds_holds. simpl.
  rewrite !Forall2_Rle_nth.
  assert (Hl : length (Model2.lb_box g) = 24%nat) by (apply length_window, Hw).
  assert (Hu : length (Model2.ub_box g) = 24%nat) by (apply length_window, Hw).
  rewrite Hl, Hu. split.
  - intros [[E1 L] [E2 U]]. split; [congruence|].
    intros i Hi. split; [apply L | apply U]; congruence.
  - intros [E B]. rewrite E.
    repeat split; try reflexivity; intros i Hi; apply B; exact Hi.
Qed.

(** C4.  For each slot [i] of 0..23 the box bounds are 0 and 0 when
    [i < T_MIN] or [i >= T_MAX], and the configured lower and upper power
    bounds otherwise, in the [Bounds] of Model 2 and in the variables of
    Model 1 alike; the configured bounds are -6.6 and 6.6 in Model 2 and 0
    and 6.6 in Model 1; and the box holds of a vector exactly when each of
    its 24 entries lies between its own two bounds. *)
Theorem box_bounds (g : Globals) :
  (forall i : nat, (i < 24)%nat ->
     let closed := (i <? T_MIN g)%nat || (T_MAX g <=? i)%nat in
     nth i (Model2.bounds_lb (Model2.bounds g)) 0 =
       (if closed then 0 else CHARGE_POWER_LOWER_BOUND_KWH g) /\
     nth i (Model2.bounds_ub (Model2.bounds g)) 0 =
       (if closed then 0 else CHARGE_POWER_HIGHER_BOUND_KWH g) /\
     forall d : Model1.NumVar,
       Model1.var_lb (nth i (Model1.variables g) d) =
         (if closed then 0 else CHARGE_POWER_LOWER_BOUND_KWH g) /\
       Model1.var_ub (nth i (Model1.variables g) d) =
         (if closed then 0 else CHARGE_POWER_HIGHER_BOUND_KWH g)) /\
  (CHARGE_POWER_LOWER_BOUND_KWH Model2.notebook = -6.6 /\
   CHARGE_POWER_HIGHER_BOUND_KWH Model2.notebook = 6.6 /\
   CHARGE_POWER_LOWER_BOUND_KWH Model1.notebook = 0 /\
   CHARGE_POWER_HIGHER_BOUND_KWH Model1.notebook = 6.6) /\
  (forall p : list R, (T_MIN g <= T_MAX g <= 24)%nat ->
     (Model2.Bounds_holds (Model2.bounds g) p <->
      length p = 24%nat /\
      forall i, (i < 24)%nat ->
        nth i (Model2.bounds_lb (Model2.bounds g)) 0 <= nth i p 0
          <= nth i (Model2.bounds_ub (Model2.bounds g)) 0)).
Proof.
  split; [|split].
  - intros i Hi closed. subst closed. simpl Model2.bounds_lb.
    simpl Model2.bounds_ub. unfold Model2.lb_box, Model2.ub_box.
    rewrite !nth_window. split; [reflexivity|]. split; [reflexivity|].
    intro d. rewrite nth_variables by exact Hi.
    destruct ((i <? T_MIN g)%nat || (T_MAX g <=? i)%nat); split; reflexivity.
  - repeat split; reflexivity.
  - intros p Hw. apply Bounds_holds_slots. exact Hw.
Qed.

Lemma box_bounds_witness :
  (nth 0 (Model2.bounds_lb (Model2.bounds Model2.notebook)) 0 = 0 /\
   nth 0 (Model2.bounds_ub (Model2.bounds Model2.notebook)) 0 = 0) /\
  (nth 21 (Model2.bounds_lb (Model2.bounds Model2.notebook)) 0 = -6.6 /\
   nth 21 (Model2.bounds_ub (Model2.bounds Model2.notebook)) 0 = 6.6) /\
  (Model2.Bounds_holds (Model2.bounds Model2.notebook) Model2.p0 <->
   length Model2.p0 = 24%nat /\
   forall i, (i < 24)%nat ->
     nth i (Model2.bounds_lb (Model2.bounds Model2.notebook)) 0
       <= nth i Model2.p0 0
       <= nth i (Model2.bounds_ub (Model2.bounds Model2.notebook)) 0).
Proof.
  destruct (box_bounds Model2.notebook) as [Hslot [_ Hbox]].
  split; [|split].
  - destruct (Hslot 0%nat ltac:(lia)) as [Hl [Hu _]]. split; assumption.
  - destruct (Hslot 21%nat ltac:(lia)) as [Hl [Hu _]]. split; assumption.
  - apply (Hbox Model2.p0). simpl. lia.
Defined.

(** ** Range of the cost functions *)

Lemma exp_monotone (u v : R) : u <= v -> exp u <= exp v.
Proof.
  intros [H | H].
  - left. apply exp_increasing. exact H.
  - subst v. right. reflexivity.
Qed.

Lemma exp_nat_lower (n : nat) : 2 ^ n <= exp (INR n).
Proof.
  induction n as [|n IH].
  - simpl. rewrite exp_0. lra.
  - rewrite S_INR, exp_plus. simpl pow.
    pose proof (exp_ineq1 1 ltac:(lra)) as H1.
    pose proof (pow_lt 2 n ltac:(lra)) as H2.
    pose proof (exp_pos (INR n)) as H3.
    nra.
Qed.

Lemma exp_nat_upper (n : nat) : exp (INR n) <= 3 ^ n.
Proof.
  induction n as [|n IH].
  - simpl. rewrite exp_0. lra.
  - rewrite S_INR, exp_plus. simpl pow.
    pose proof exp_le_3 as H1.
    pose proof (exp_pos 1) as H2.
    pose proof (exp_pos (INR n)) as H3.
    nra.
Qed.

Lemma binary64_max_bounds : 2 ^ 1023 <= binary64_max < 2 ^ 1024.
Proof.
  unfold binary64_max.
  change 1024%nat with (S 1023). simpl pow at 4.
  assert (0 < 2 ^ 1023) by (apply pow_lt; lra).
  assert (0 < / 2 ^ 52 < 1).
  { split.
    - apply Rinv_0_lt_compat, pow_lt; lra.
    - rewrite <- Rinv_1. apply Rinv_lt_contravar.
      + rewrite Rmult_1_l. apply pow_lt; lra.
      + apply Rlt_pow_R1; [lra | lia]. }
  nra.
Qed.

Lemma py_sum_nonneg (l : list R) : Forall (fun e => 0 <= e) l -> 0 <= py_sum l.
Proof.
  induction 1 as [|e t He _ IH].
  - unfold py_sum. simpl. lra.
  - rewrite py_sum_cons. lra.
Qed.

Lemma slot_sum_abs_le (n : nat) (f : nat -> R) (M : R) :
  (forall i, (i < n)%nat -> Rabs (f i) <= M) ->
  Rabs (slot_sum n f) <= INR n * M.
Proof.
  induction n as [|n IH]; intro Hf.
  - simpl. rewrite Rabs_R0. lra.
  - rewrite S_INR. simpl.
    pose proof (Rabs_triang (slot_sum n f) (f n)) as Ht.
    assert (Rabs (slot_sum n f) <= INR n * M) by (apply IH; intros; apply Hf; lia).
    assert (Rabs (f n) <= M) by (apply Hf; lia).
    lra.
Qed.

Lemma tarif_bleu_range :
  Forall (fun ep => Rabs ep <= 0.1781) (ELECTRICITY_COSTS Model2.notebook).
Proof.
  simpl ELECTRICITY_COSTS. unfold tarif_bleu, py_repeat, LOW_COST, HIGH_COST.
  simpl.
  repeat (apply Forall_cons; [rewrite Rabs_pos_eq; lra|]). apply Forall_nil.
Qed.

(** The vector that is 10^6 in slot 0 and 0 elsewhere. *)
Lemma degradation_overflow :
  binary64_max <
  Model2.degradation_function Model2.notebook Model2.a Model2.b (10 ^ 6) /\
  binary64_max <
  Model2.cost_degradation Model2.notebook Model2.a Model2.b
    (10 ^ 6 :: repeat 0 23).
Proof.
  assert (Hexp : 2 ^ 1100 <= exp (Model2.b * Rabs (10 ^ 6) / 6.6)).
  { apply Rle_trans with (exp (INR 1100)); [apply exp_nat_lower|].
    apply exp_monotone. rewrite INR_IZR_INZ. simpl Z.of_nat.
    rewrite Rabs_pos_eq by lra. unfold Model2.b. lra. }
  assert (Hpow : 2 ^ 1100 = 2 ^ 1024 * 2 ^ 76)
    by (rewrite <- pow_add; reflexivity).
  pose proof binary64_max_bounds as [_ Hmax].
  assert (H1024 : 0 < 2 ^ 1024) by (apply pow_lt; lra).
  assert (Hf : 2 ^ 1024 * 2 ^ 50 <=
               Model2.degradation_function Model2.notebook Model2.a Model2.b
                 (10 ^ 6)).
  { unfold Model2.degradation_function. simpl CHARGE_POWER_HIGHER_BOUND_KWH.
    unfold Model2.a at 1.
    apply Rle_trans with (/ 10 ^ 5 * 2 ^ 1100).
    - rewrite Hpow.
      assert (2 ^ 50 <= / 10 ^ 5 * 2 ^ 76) by lra. nra.
    - apply Rmult_le_compat_l; [lra | exact Hexp]. }
  assert (Hbig : 2 ^ 1024 <=
                 Model2.degradation_function Model2.notebook Model2.a Model2.b
                   (10 ^ 6)).
  { apply Rle_trans with (2 ^ 1024 * 2 ^ 50); [|exact Hf].
    rewrite <- (Rmult_1_r (2 ^ 1024)) at 1.
    apply Rmult_le_compat_l; [left; exact H1024 | lra]. }
  clear Hf Hexp Hpow.
  set (f := Model2.degradation_function Model2.notebook Model2.a Model2.b
              (10 ^ 6)) in *.
  set (P := 2 ^ 1024) in *.
  split; [lra|].
  unfold Model2.cost_degradation. rewrite map_cons, py_sum_cons.
  fold f.
  assert (Hrest : 0 <= py_sum (map (Model2.degradation_function
                     Model2.notebook Model2.a Model2.b) (repeat 0 23))).
  { apply py_sum_nonneg, Forall_map, Forall_forall. intros e _.
    left. apply degradation_function_pos. unfold Model2.a. lra. }
  assert (HB : Model2.BATTERY_COST Model2.notebook = 3931.2)
    by (unfold Model2.BATTERY_COST; simpl; lra).
  rewrite HB.
  set (r := py_sum _) in *.
  lra.
Qed.

(** C5 as stated fails: [np.exp] overflows at the 24-vector that is 10^6
    in slot 0 and 0 elsewhere, so [cost_degradation] and [cost_charge] are
    not finite there. *)
Lemma cost_finite_counterexample :
  ~ (forall p : list R, length p = 24%nat ->
       binary64_finite (Model2.cost_electricity Model2.notebook p) /\
       binary64_finite
         (Model2.cost_degradation Model2.notebook Model2.a Model2.b p) /\
       binary64_finite
         (Model2.cost_charge Model2.notebook Model2.a Model2.b p)).
Proof.
  intro H.
  destruct (H (10 ^ 6 :: repeat 0 23) eq_refl) as [_ [Hcd _]].
  destruct degradation_overflow as [_ Hover].
  unfold binary64_finite in Hcd.
  pose proof (Rle_abs (Model2.cost_degradation Model2.notebook Model2.a
                         Model2.b (10 ^ 6 :: repeat 0 23))) as Habs.
  lra.
Qed.

Lemma cost_electricity_range (p : list R) (B : R) :
  length p = 24%nat ->
  Forall (fun v => Rabs v <= B) p ->
  Rabs (Model2.cost_electricity Model2.notebook p) <= 24 * (B * 0.1781).
Proof.
  intros Hp HB.
  rewrite cost_electricity_slots, Hp.
  change (Nat.min 24 (length (ELECTRICITY_COSTS Model2.notebook))) with 24%nat.
  replace 24 with (INR 24) by (simpl; lra).
  apply slot_sum_abs_le. intros i Hi.
  rewrite Rabs_mult.
  pose proof (proj1 (Forall_nth _ _) HB i 0 ltac:(lia)) as H1.
  pose proof (proj1 (Forall_nth _ _) tarif_bleu_range i 0 Hi) as H2.
  simpl in H1, H2.
  apply Rmult_le_compat; try apply Rabs_pos; assumption.
Qed.

Lemma degradation_function_range (p_ : R) (n : nat) :
  Rabs p_ <= 132 * INR n ->
  0 < Model2.degradation_function Model2.notebook Model2.a Model2.b p_
    <= / 10 ^ 5 * 3 ^ n.
Proof.
  intro Hp. split.
  - apply degradation_function_pos. unfold Model2.a. lra.
  - unfold Model2.degradation_function, Model2.a, Model2.b.
    simpl CHARGE_POWER_HIGHER_BOUND_KWH.
    apply Rmult_le_compat_l; [lra|].
    apply Rle_trans with (exp (INR n)); [|apply exp_nat_upper].
    apply exp_monotone. lra.
Qed.

Lemma cost_degradation_range (p : list R) (n : nat) :
  length p = 24%nat ->
  Forall (fun v => Rabs v <= 132 * INR n) p ->
  0 <= Model2.cost_degradation Model2.notebook Model2.a Model2.b p
    <= 3931.2 * (24 * (/ 10 ^ 5 * 3 ^ n)).
Proof.
  intros Hp HB.
  rewrite cost_degradation_slots, Hp.
  replace (Model2.BATTERY_COST Model2.notebook) with 3931.2
    by (unfold Model2.BATTERY_COST; simpl; lra).
  set (f := fun i : nat => Model2.degradation_function _ _ _ _).
  assert (Hf : forall i, (i < 24)%nat -> 0 < f i <= / 10 ^ 5 * 3 ^ n).
  { intros i Hi. apply degradation_function_range.
    apply (proj1 (Forall_nth _ _) HB i 0). lia. }
  assert (Hlo : 0 < slot_sum 24 f)
    by (apply slot_sum_pos; [lia | intros i Hi; apply Hf, Hi]).
  assert (Hhi : slot_sum 24 f <= INR 24 * (/ 10 ^ 5 * 3 ^ n)).
  { rewrite <- slot_sum_const. apply slot_sum_le. intros i Hi. apply Hf, Hi. }
  replace (INR 24) with 24 in Hhi by (simpl; lra).
  split; nra.
Qed.

(** C5, as the code has it.  The three cost functions return a value
    within the finite range of binary64 for every 24-vector whose entries
    have magnitude at most 66000 (ten thousand times the power bound),
    whether or not it satisfies the constraints.  (Beyond, [np.exp] ends up
    overflowing: see the lemma above.) *)
Theorem cost_finite_in_range (p : list R) :
  length p = 24%nat ->
  Forall (fun v => Rabs v <= 66000) p ->
  binary64_finite (Model2.cost_electricity Model2.notebook p) /\
  binary64_finite
    (Model2.cost_degradation Model2.notebook Model2.a Model2.b p) /\
  binary64_finite (Model2.cost_charge Model2.notebook Model2.a Model2.b p).
Proof.
  intros Hp HB.
  pose proof (cost_electricity_range p 66000 Hp HB) as Hce.
  assert (HB' : Forall (fun v => Rabs v <= 132 * INR 500) p).
  { revert HB. apply Forall_impl. intro v.
    rewrite INR_IZR_INZ. simpl Z.of_nat. lra. }
  pose proof (cost_degradation_range p 500 Hp HB') as Hcd.
  pose proof binary64_max_bounds as [Hmax _].
  assert (H3 : 3 ^ 500 <= 2 ^ 1022).
  { rewrite !pow_IZR. apply IZR_le. vm_compute. discriminate. }
  assert (H2 : 2 ^ 19 <= 2 ^ 1022) by (apply Rle_pow; [lra | lia]).
  assert (H19 : 2 ^ 19 = 524288) by lra.
  change 1023%nat with (S 1022) in Hmax. rewrite <- tech_pow_Rmult in Hmax.
  unfold Model2.cost_charge, binary64_finite.
  set (ce := Model2.cost_electricity Model2.notebook p) in *.
  set (cd := Model2.cost_degradation Model2.notebook Model2.a Model2.b p) in *.
  set (T := 3 ^ 500) in *. set (Q := 2 ^ 1022) in *.
  assert (Hcc : Rabs (ce + cd) <= Rabs ce + Rabs cd) by apply Rabs_triang.
  assert (Hacd : Rabs cd = cd) by (apply Rabs_pos_eq; lra).
  repeat split; lra.
Qed.

Lemma cost_finite_in_range_witness :
  binary64_finite (Model2.cost_electricity Model2.notebook Model2.p0) /\
  binary64_finite
    (Model2.cost_degradation Model2.notebook Model2.a Model2.b Model2.p0) /\
  binary64_finite
    (Model2.cost_charge Model2.notebook Model2.a Model2.b Model2.p0).
Proof.
  apply (cost_finite_in_range Model2.p0).
  - reflexivity.
  - unfold Model2.p0, py_repeat. simpl.
    repeat (apply Forall_cons; [rewrite Rabs_pos_eq; lra|]). apply Forall_nil.
Defined.

(** ** The solver driver *)

(** C7, as the code has it.  Cell 6 never reads the status of the result:
    two runs whose solvers return the same vector print the same lines,
    whatever their statuses, and the vector is printed, rounded to two
    digits, under the heading "Optimal charge profile (kWh):".  The status
    stays in the result object of the solver and is not reported. *)
Theorem driver_ignores_status (g : Globals) (a b : R)
    (minimize minimize' : Model2.Solver) :
  Model2.x (Model2.res g a b minimize) =
    Model2.x (Model2.res g a b minimize') ->
  Model2.pipeline g a b minimize = Model2.pipeline g a b minimize' /\
  Model2.heading (Model2.pipeline g a b minimize) =
    "Optimal charge profile (kWh):"%string /\
  Model2.solution_line (Model2.pipeline g a b minimize) =
    map (fun rx => py_round rx 2) (Model2.x (Model2.res g a b minimize)).
Proof.
  intro Hx. unfold Model2.pipeline, Model2.cell6.
  rewrite Hx. repeat split.
Qed.

Lemma driver_ignores_status_witness :
  let exhausted : Model2.Solver :=
    fun _ start _ _ => {| Model2.x := start; Model2.status := 0 |} in
  let converged : Model2.Solver :=
    fun _ start _ _ => {| Model2.x := start; Model2.status := 1 |} in
  Model2.pipeline Model2.notebook Model2.a Model2.b exhausted =
    Model2.pipeline Model2.notebook Model2.a Model2.b converged /\
  Model2.heading (Model2.pipeline Model2.notebook Model2.a Model2.b exhausted) =
    "Optimal charge profile (kWh):"%string /\
  Model2.solution_line
    (Model2.pipeline Model2.notebook Model2.a Model2.b exhausted) =
    map (fun rx => py_round rx 2)
      (Model2.x (Model2.res Model2.notebook Model2.a Model2.b exhausted)).
Proof.
  intros exhausted converged.
  apply (driver_ignores_status Model2.notebook Model2.a Model2.b
           exhausted converged).
  reflexivity.
Defined.

(** C7 as stated fails: a solver that stops on an exhausted budget
    (status 0) and one that meets its tolerances (status 1), returning the
    same vector, lead to the very same printed report, headed "Optimal
    charge profile (kWh):". *)
Lemma nonconvergence_counterexample :
  let exhausted : Model2.Solver :=
    fun _ start _ _ => {| Model2.x := start; Model2.status := 0 |} in
  let converged : Model2.Solver :=
    fun _ start _ _ => {| Model2.x := start; Model2.status := 1 |} in
  Model2.status (Model2.res Model2.notebook Model2.a Model2.b exhausted)
    = 0%Z /\
  Model2.status (Model2.res Model2.notebook Model2.a Model2.b converged)
    = 1%Z /\
  Model2.pipeline Model2.notebook Model2.a Model2.b exhausted =
    Model2.pipeline Model2.notebook Model2.a Model2.b converged /\
  Model2.heading (Model2.pipeline Model2.notebook Model2.a Model2.b exhausted) =
    "Optimal charge profile (kWh):"%string.
Proof.
  intros exhausted converged. repeat split.
Qed.

Lemma length_lb_box (g : Globals) :
  length (Model2.lb_box g) =
  (T_MIN g + (T_MAX g - T_MIN g) + (24 - T_MAX g))%nat.
Proof.
  unfold Model2.lb_box, py_repeat. rewrite !length_app, !repeat_length. lia.
Qed.

Lemma length_ub_box (g : Globals) :
  length (Model2.ub_box g) =
  (T_MIN g + (T_MAX g - T_MIN g) + (24 - T_MAX g))%nat.
Proof.
  unfold Model2.ub_box, py_repeat. rewrite !length_app, !repeat_length. lia.
Qed.

(** C8, as the code has it.  The pipeline has no validation step: for
    every configuration, well-formed or not, and every solver, the solver is
    called on the objective, the initial guess, the linear constraint and
    the bounds built from the values as they are given, and its result is
    printed.  Nothing is clamped: each row of the linear constraint carries
    the products of the given capacity and state-of-charge fractions, and
    the box-bound lists have [T_MIN + max(T_MAX-T_MIN, 0) + max(24-T_MAX, 0)]
    entries, more than 24 when the window is reversed. *)
Theorem pipeline_no_validation (g : Globals) (a b : R)
    (minimize : Model2.Solver) :
  Model2.pipeline g a b minimize =
    Model2.cell6 g a b
      (minimize (Model2.cost_charge g a b) Model2.p0
         [Model2.linear_constraint g] (Model2.bounds g)) /\
  (forall k : nat, (k < 24)%nat ->
     nth k (Model2.lc_lb (Model2.linear_constraint g)) 0 =
       (if (k <? T_MAX g)%nat
        then - STATE_OF_CHARGE_T0 g * Q_KWH g
        else (STATE_OF_CHARGE_TCH g - STATE_OF_CHARGE_T0 g) * Q_KWH g) /\
     nth k (Model2.lc_ub (Model2.linear_constraint g)) 0 =
       (1 - STATE_OF_CHARGE_T0 g) * Q_KWH g) /\
  length (Model2.bounds_lb (Model2.bounds g)) =
    (T_MIN g + (T_MAX g - T_MIN g) + (24 - T_MAX g))%nat /\
  length (Model2.bounds_ub (Model2.bounds g)) =
    (T_MIN g + (T_MAX g - T_MIN g) + (24 - T_MAX g))%nat.
Proof.
  split; [reflexivity|]. split; [|split].
  - intros k Hk. split; [apply lb_soc_row | apply ub_soc_row]; exact Hk.
  - apply length_lb_box.
  - apply length_ub_box.
Qed.

Lemma pipeline_no_validation_witness :
  let bad := {| ELECTRICITY_COSTS := tarif_bleu;
                STATE_OF_CHARGE_T0 := 1.5;
                STATE_OF_CHARGE_TCH := 0.90;
                Q_KWH := -30;
                CHARGE_POWER_LOWER_BOUND_KWH := -6.6;
                CHARGE_POWER_HIGHER_BOUND_KWH := 6.6;
                T_MIN := 22;
                T_MAX := 1 |} in
  nth 0 (Model2.lc_lb (Model2.linear_constraint bad)) 0 = - (1.5) * -30 /\
  nth 0 (Model2.lc_ub (Model2.linear_constraint bad)) 0 = (1 - 1.5) * -30 /\
  length (Model2.bounds_lb (Model2.bounds bad)) = 45%nat.
Proof.
  intro bad.
  destruct (pipeline_no_validation bad Model2.a Model2.b
              (fun _ start _ _ => {| Model2.x := start; Model2.status := 1 |}))
    as [_ [Hrow [Hlen _]]].
  destruct (Hrow 0%nat ltac:(lia)) as [Hl Hu].
  split; [exact Hl|]. split; [exact Hu | exact Hlen].
Defined.

(** C8 as stated fails: with an initial state of charge of 1.5, outside
    [0, 1], nothing is rejected: what the pipeline prints still depends on
    what the solver returns, so the solver has been called; and the first
    row of the constraint carries the unclamped bound -1.5*30. *)
Lemma validation_counterexample :
  let bad := {| ELECTRICITY_COSTS := tarif_bleu;
                STATE_OF_CHARGE_T0 := 1.5;
                STATE_OF_CHARGE_TCH := 0.90;
                Q_KWH := 30;
                CHARGE_POWER_LOWER_BOUND_KWH := -6.6;
                CHARGE_POWER_HIGHER_BOUND_KWH := 6.6;
                T_MIN := 1;
                T_MAX := 22 |} in
  ~ (0 <= STATE_OF_CHARGE_T0 bad <= 1) /\
  Model2.pipeline bad Model2.a Model2.b
    (fun _ start _ _ => {| Model2.x := start; Model2.status := 1 |}) <>
  Model2.pipeline bad Model2.a Model2.b
    (fun _ _ _ _ => {| Model2.x := []; Model2.status := 1 |}) /\
  nth 0 (Model2.lc_lb (Model2.linear_constraint bad)) 0 = - (1.5) * 30.
Proof.
  intro bad. split; [|split].
  - simpl. lra.
  - intro H. apply (f_equal Model2.solution_line) in H. discriminate H.
  - apply (lb_soc_row bad 0). lia.
Qed.

(** ** Model 1 as a linear program, and the reduction of Model 2 to it *)

Lemma var_name_new_variable (g : Globals) (i : nat) :
  Model1.var_name (Model1.new_variable g i) = i.
Proof.
  unfold Model1.new_variable.
  destruct ((i <? T_MIN g)%nat || (T_MAX g <=? i)%nat); reflexivity.
Qed.

Lemma firstn_seq_min (n start len : nat) :
  firstn n (seq start len) = seq start (Nat.min n len).
Proof.
  revert start len. induction n as [|n IH]; intros start [|len]; simpl;
    try reflexivity.
  rewrite IH. reflexivity.
Qed.

Lemma firstn_variables (g : Globals) (n : nat) :
  firstn n (Model1.variables g) =
  map (Model1.new_variable g) (seq 0 (Nat.min n 24)).
Proof.
  unfold Model1.variables. rewrite firstn_map, firstn_seq_min. reflexivity.
Qed.

(** Setting the coefficient 1 on the variables of ranks [0..k-1]. *)
Lemma SetCoefficient_loop (g : Globals) (ct0 : Model1.Constraint) (k : nat) :
  let ct := fold_left (fun ct variable => Model1.SetCoefficient ct variable 1)
              (map (Model1.new_variable g) (seq 0 k)) ct0 in
  Model1.ct_lb ct = Model1.ct_lb ct0 /\
  Model1.ct_ub ct = Model1.ct_ub ct0 /\
  forall j, Model1.ct_coef ct j =
            if (j <? k)%nat then 1 else Model1.ct_coef ct0 j.
Proof.
  induction k as [|k IH].
  - simpl. repeat split.
  - cbv zeta in *. destruct IH as [IHl [IHu IHc]].
    rewrite seq_S, map_app, fold_left_app. simpl.
    split; [exact IHl|]. split; [exact IHu|].
    intro j. rewrite var_name_new_variable, IHc.
    destruct (Nat.eqb_spec j k) as [E|E].
    + subst j. rewrite (proj2 (Nat.ltb_lt k (S k))) by lia. reflexivity.
    + destruct (j <? k)%nat eqn:E1.
      * apply Nat.ltb_lt in E1.
        rewrite (proj2 (Nat.ltb_lt j (S k))) by lia. reflexivity.
      * apply Nat.ltb_ge in E1.
        rewrite (proj2 (Nat.ltb_ge j (S k))) by lia. reflexivity.
Qed.

Lemma combine_seq_map {A} (f : nat -> A) (l : list nat) :
  combine l (map f l) = map (fun i => (i, f i)) l.
Proof.
  induction l as [|e t IH]; simpl; [reflexivity | rewrite IH; reflexivity].
Qed.

(** The objective receives the price of slot [i] on the variable of rank
    [i]. *)
Lemma Objective_loop (g : Globals) (k : nat) (j : nat) :
  Model1.obj_coef
    (fold_left
       (fun o '(i, variable) =>
          Model1.Objective_SetCoefficient o variable
            (nth i (ELECTRICITY_COSTS g) 0))
       (map (fun i => (i, Model1.new_variable g i)) (seq 0 k))
       Model1.new_Objective) j =
  if (j <? k)%nat then nth j (ELECTRICITY_COSTS g) 0 else 0.
Proof.
  induction k as [|k IH].
  - reflexivity.
  - rewrite seq_S, map_app, fold_left_app. simpl.
    rewrite var_name_new_variable, IH.
    destruct (Nat.eqb_spec j k) as [E|E].
    + subst j. rewrite (proj2 (Nat.ltb_lt k (S k))) by lia. reflexivity.
    + destruct (j <? k)%nat eqn:E1.
      * apply Nat.ltb_lt in E1.
        rewrite (proj2 (Nat.ltb_lt j (S k))) by lia. reflexivity.
      * apply Nat.ltb_ge in E1.
        rewrite (proj2 (Nat.ltb_ge j (S k))) by lia. reflexivity.
Qed.

Lemma obj_coef_objective (g : Globals) (j : nat) :
  Model1.obj_coef (Model1.objective g) j =
  if (j <? 24)%nat then nth j (ELECTRICITY_COSTS g) 0 else 0.
Proof.
  unfold Model1.objective, Model1.SetMinimization, Model1.enumerate.
  cbn [Model1.obj_coef].
  rewrite length_variables. unfold Model1.variables.
  rewrite combine_seq_map. apply Objective_loop.
Qed.

(** A linear form over the 24 variables, slot by slot. *)
Lemma linear_value_slots (g : Globals) (coef : nat -> R) (sol : list R) :
  length sol = 24%nat ->
  Model1.linear_value coef (Model1.variables g) sol =
  slot_sum 24 (fun i => coef i * nth i sol 0).
Proof.
  intro Hs. unfold Model1.linear_value.
  rewrite (py_sum_zip _ _ _ (Model1.new_variable g 0) 0).
  rewrite length_variables, Hs. simpl Nat.min.
  apply slot_sum_ext. intros i Hi.
  unfold Model1.variables. rewrite nth_map_seq by exact Hi.
  rewrite var_name_new_variable. reflexivity.
Qed.

Lemma slot_sum_indicator (N n : nat) (f : nat -> R) :
  slot_sum N (fun i => (if (i <? n)%nat then 1 else 0) * f i) =
  slot_sum (Nat.min n N) f.
Proof.
  induction N as [|N IH].
  - rewrite Nat.min_0_r. reflexivity.
  - simpl slot_sum at 1. rewrite IH.
    destruct (N <? n)%nat eqn:E.
    + apply Nat.ltb_lt in E.
      rewrite (Nat.min_r n N), (Nat.min_r n (S N)) by lia. simpl. ring.
    + apply Nat.ltb_ge in E.
      rewrite (Nat.min_l n N), (Nat.min_l n (S N)) by lia. ring.
Qed.

(** A row with coefficient 1 on [variables[:n]] takes the charge delivered
    in the first [n] slots. *)
Lemma prefix_constraint_value (g : Globals) (ct0 : Model1.Constraint)
    (n : nat) (sol : list R) :
  length sol = 24%nat ->
  (forall j, Model1.ct_coef ct0 j = 0) ->
  let ct := fold_left (fun ct variable => Model1.SetCoefficient ct variable 1)
              (firstn n (Model1.variables g)) ct0 in
  Model1.ct_lb ct = Model1.ct_lb ct0 /\
  Model1.ct_ub ct = Model1.ct_ub ct0 /\
  Model1.linear_value (Model1.ct_coef ct) (Model1.variables g) sol =
    slot_sum (Nat.min n 24) (fun i => nth i sol 0).
Proof.
  intros Hs H0 ct. subst ct. rewrite firstn_variables.
  destruct (SetCoefficient_loop g ct0 (Nat.min n 24)) as [Hl [Hu Hc]].
  split; [exact Hl|]. split; [exact Hu|].
  rewrite linear_value_slots by exact Hs.
  rewrite (slot_sum_ext 24 _
             (fun i => (if (i <? Nat.min n 24)%nat then 1 else 0) * nth i sol 0)).
  - rewrite slot_sum_indicator. rewrite Nat.min_l by lia. reflexivity.
  - intros i _. rewrite Hc, H0. reflexivity.
Qed.

Lemma var_bounds_box (g : Globals) (i : nat) :
  Model1.var_lb (Model1.new_variable g i) = nth i (Model2.lb_box g) 0 /\
  Model1.var_ub (Model1.new_variable g i) = nth i (Model2.ub_box g) 0.
Proof.
  unfold Model2.lb_box, Model2.ub_box, Model1.new_variable.
  rewrite !nth_window.
  destruct ((i <? T_MIN g)%nat || (T_MAX g <=? i)%nat); split; reflexivity.
Qed.

Lemma closed_slot_zero (g : Globals) (i : nat) (v : R) :
  (T_MAX g <= i)%nat ->
  nth i (Model2.lb_box g) 0 <= v <= nth i (Model2.ub_box g) 0 -> v = 0.
Proof.
  intro Hi. unfold Model2.lb_box, Model2.ub_box. rewrite !nth_window.
  rewrite (proj2 (Nat.leb_le (T_MAX g) i) Hi), orb_true_r. lra.
Qed.

(** Once the entries are 0 from slot [t] on, the cumulative sum stays. *)
Lemma prefix_frozen (p : list R) (t n : nat) :
  (t <= n)%nat ->
  (forall i, (t <= i < n)%nat -> nth i p 0 = 0) ->
  slot_sum n (fun i => nth i p 0) = slot_sum t (fun i => nth i p 0).
Proof.
  intros Htn Hz. replace n with (t + (n - t))%nat by lia.
  rewrite slot_sum_plus, (slot_sum_zero (n - t)); [ring|].
  intros i Hi. apply Hz. lia.
Qed.

Lemma length_matvec (A : list (list Z)) (v : list R) :
  length (matvec A v) = length A.
Proof. unfold matvec. apply length_map. Qed.

(** The feasible region of Model 2, slot by slot and row by row. *)
Lemma Model2_feasible_iff (g : Globals) (p : list R) :
  (T_MIN g <= T_MAX g <= 24)%nat ->
  Model2.feasible g p <->
  length p = 24%nat /\
  (forall i, (i < 24)%nat ->
     nth i (Model2.lb_box g) 0 <= nth i p 0 <= nth i (Model2.ub_box g) 0) /\
  (forall k, (k < 24)%nat ->
     nth k (Model2.lb_soc g) 0 <= slot_sum (S k) (fun i => nth i p 0)
       <= nth k (Model2.ub_soc g) 0).
Proof.
  intro Hw. unfold Model2.feasible.
  rewrite (Bounds_holds_slots g p Hw).
  unfold Model2.LinearConstraint_holds. simpl Model2.lc_lb.
  simpl Model2.lc_ub. simpl Model2.lc_A.
  rewrite !(Forall2_nth_iff Rle 0 0).
  rewrite length_matvec, length_m, length_lb_soc, length_ub_soc.
  split.
  - intros [[Hl Hb] [[_ Hlo] [_ Hhi]]]. split; [exact Hl|]. split; [exact Hb|].
    intros k Hk. rewrite <- (matvec_m_row p k Hk).
    split; [apply Hlo | apply Hhi]; exact Hk.
  - intros [Hl [Hb Hs]]. split; [split; assumption|].
    split; (split; [reflexivity|]); intros k Hk;
      rewrite (matvec_m_row p k Hk); apply Hs; exact Hk.
Qed.

(** The feasible region of Model 1, slot by slot and row by row. *)
Lemma Model1_feasible_iff (g : Globals) (p : list R) :
  Model1.feasible g p <->
  length p = 24%nat /\
  (forall i, (i < 24)%nat ->
     Model1.var_lb (Model1.new_variable g i) <= nth i p 0
       <= Model1.var_ub (Model1.new_variable g i)) /\
  (Q_KWH g * (STATE_OF_CHARGE_TCH g - STATE_OF_CHARGE_T0 g)
     <= slot_sum (Nat.min (T_MAX g) 24) (fun i => nth i p 0)
     <= Q_KWH g * (1 - STATE_OF_CHARGE_T0 g)) /\
  (forall n, (1 <= n <= 24)%nat ->
     - Q_KWH g * STATE_OF_CHARGE_T0 g
       <= slot_sum n (fun i => nth i p 0)
       <= Q_KWH g * (1 - STATE_OF_CHARGE_T0 g)).
Proof.
  unfold Model1.feasible.
  rewrite (Forall2_nth_iff _ (Model1.new_variable g 0) 0).
  rewrite length_variables. unfold Model1.constraints.
  rewrite Forall_cons_iff, Forall_map, Forall_forall.
  assert (Hvar : forall i, (i < 24)%nat ->
            nth i (Model1.variables g) (Model1.new_variable g 0) =
            Model1.new_variable g i)
    by (intros i Hi; unfold Model1.variables; apply nth_map_seq, Hi).
  assert (Hrow : length p = 24%nat -> forall n lo hi name,
            let ct := fold_left
                        (fun ct variable => Model1.SetCoefficient ct variable 1)
                        (firstn n (Model1.variables g))
                        (Model1.new_Constraint lo hi name) in
            Model1.ct_lb ct
              <= Model1.linear_value (Model1.ct_coef ct) (Model1.variables g) p
              <= Model1.ct_ub ct <->
            lo <= slot_sum (Nat.min n 24) (fun i => nth i p 0) <= hi).
  { intros Hl n lo hi name ct. subst ct.
    destruct (prefix_constraint_value g (Model1.new_Constraint lo hi name)
                n p Hl (fun _ => eq_refl)) as [E1 [E2 E3]].
    rewrite E1, E2, E3. reflexivity. }
  split.
  - intros [[Hl Hb] [Hc Hn]]. symmetry in Hl. split; [exact Hl|].
    split; [|split].
    + intros i Hi. rewrite <- (Hvar i Hi). apply Hb. exact Hi.
    + apply (Hrow Hl) in Hc. exact Hc.
    + intros n Hn'. specialize (Hn n ltac:(apply in_seq; lia)).
      apply (Hrow Hl) in Hn. rewrite Nat.min_l in Hn by lia. exact Hn.
  - intros [Hl [Hb [Hc Hn]]]. split; [split|split].
    + symmetry. exact Hl.
    + intros i Hi. rewrite (Hvar i Hi). apply Hb. exact Hi.
    + apply (Hrow Hl). exact Hc.
    + intros n Hin. apply in_seq in Hin. apply (Hrow Hl).
      rewrite Nat.min_l by lia. apply Hn. lia.
Qed.

(** With the window inside the day and closed before its last slot, the
    two notebooks describe the same feasible region. *)
Lemma feasible_regions_agree (g : Globals) (p : list R) :
  (T_MIN g < T_MAX g)%nat -> (T_MAX g < 24)%nat ->
  Model2.feasible g p <-> Model1.feasible g p.
Proof.
  intros Hmin Hmax.
  rewrite Model2_feasible_iff by lia. rewrite Model1_feasible_iff.
  rewrite (Nat.min_l (T_MAX g) 24) by lia.
  set (S_ := fun n => slot_sum n (fun i => nth i p 0)).
  split.
  - intros [Hl [Hb Hs]]. split; [exact Hl|]. split; [|split].
    + intros i Hi. destruct (var_bounds_box g i) as [E1 E2].
      rewrite E1, E2. apply Hb. exact Hi.
    + assert (Hfro : S_ (S (T_MAX g)) = S_ (T_MAX g)).
      { apply prefix_frozen; [lia|]. intros i Hi.
        apply (closed_slot_zero g i); [lia | apply Hb; lia]. }
      pose proof (Hs (T_MAX g) Hmax) as Ht.
      pose proof (Hs (T_MAX g - 1)%nat ltac:(lia)) as Hp.
      rewrite lb_soc_row, ub_soc_row in Ht, Hp by lia.
      rewrite (proj2 (Nat.ltb_ge (T_MAX g) (T_MAX g))) in Ht by lia.
      replace (S (T_MAX g - 1)) with (T_MAX g) in Hp by lia.
      fold (S_ (S (T_MAX g))) in Ht. fold (S_ (T_MAX g)) in Hp |- *.
      rewrite Hfro in Ht. lra.
    + intros n Hn. fold (S_ n).
      pose proof (Hs (n - 1)%nat ltac:(lia)) as Hk.
      rewrite lb_soc_row, ub_soc_row in Hk by lia.
      replace (S (n - 1)) with n in Hk by lia. fold (S_ n) in Hk.
      destruct (n - 1 <? T_MAX g)%nat eqn:E; [lra|].
      apply Nat.ltb_ge in E.
      assert (Hfro : S_ n = S_ (T_MAX g)).
      { apply prefix_frozen; [lia|]. intros i Hi.
        apply (closed_slot_zero g i); [lia | apply Hb; lia]. }
      pose proof (Hs (T_MAX g - 1)%nat ltac:(lia)) as Hp.
      rewrite lb_soc_row, ub_soc_row in Hp by lia.
      rewrite (proj2 (Nat.ltb_lt (T_MAX g - 1) (T_MAX g))) in Hp by lia.
      replace (S (T_MAX g - 1)) with (T_MAX g) in Hp by lia.
      fold (S_ (T_MAX g)) in Hp. rewrite Hfro. lra.
  - intros [Hl [Hb [Hc Hn]]].
    assert (Hb' : forall i, (i < 24)%nat ->
              nth i (Model2.lb_box g) 0 <= nth i p 0
                <= nth i (Model2.ub_box g) 0).
    { intros i Hi. destruct (var_bounds_box g i) as [E1 E2].
      rewrite <- E1, <- E2. apply Hb. exact Hi. }
    split; [exact Hl|]. split; [exact Hb'|].
    intros k Hk. rewrite lb_soc_row, ub_soc_row by exact Hk.
    pose proof (Hn (S k) ltac:(lia)) as Hrow.
    fold (S_ (S k)) in Hrow |- *. fold (S_ (T_MAX g)) in Hc.
    destruct (k <? T_MAX g)%nat eqn:E; [lra|].
    apply Nat.ltb_ge in E.
    assert (Hfro : S_ (S k) = S_ (T_MAX g)).
    { apply prefix_frozen; [lia|]. intros i Hi.
      apply (closed_slot_zero g i); [lia | apply Hb'; lia]. }
    rewrite Hfro in *. lra.
Qed.

Lemma zero_base_rate_cost (g : Globals) (b : R) (p : list R) :
  Model2.cost_charge g 0 b p = Model2.cost_electricity g p.
Proof.
  unfold Model2.cost_charge. rewrite cost_degradation_slots.
  rewrite slot_sum_zero.
  - ring.
  - intros i _. unfold Model2.degradation_function. ring.
Qed.

Lemma objective_value_slots (g : Globals) (p : list R) :
  length p = 24%nat ->
  Model1.objective_value g p =
  slot_sum 24 (fun i => nth i (ELECTRICITY_COSTS g) 0 * nth i p 0).
Proof.
  intro Hp. unfold Model1.objective_value.
  rewrite linear_value_slots by exact Hp.
  apply slot_sum_ext. intros i Hi. rewrite obj_coef_objective.
  rewrite (proj2 (Nat.ltb_lt i 24) Hi). reflexivity.
Qed.

Lemma objective_is_cost_electricity (g : Globals) (p : list R) :
  length (ELECTRICITY_COSTS g) = 24%nat ->
  length p = 24%nat ->
  Model1.objective_value g p = Model2.cost_electricity g p.
Proof.
  intros Hc Hp.
  rewrite objective_value_slots by exact Hp.
  rewrite cost_electricity_slots, Hc, Hp. simpl Nat.min.
  apply slot_sum_ext. intros i _. ring.
Qed.

(** X21.  When the deadline falls before the last slot
    ([T_MIN < T_MAX < 24], as in the notebooks, where [T_MAX] is 22), with
    24 prices, a zero base rate and the same constants in both notebooks
    (in particular the zero lower power bound of Model 1): Model 2 and the
    linear program of Model 1 have the same feasible region and the same
    objective on it, which is the electricity cost; the linear program is
    set to minimise it; hence any optimum of the one and any optimum of the
    other have the same electricity cost.  (For [T_MAX = 24] see the end
    of the file.) *)
Theorem zero_degradation_reduction (g : Globals) (b : R) :
  length (ELECTRICITY_COSTS g) = 24%nat ->
  (T_MIN g < T_MAX g)%nat ->
  (T_MAX g < 24)%nat ->
  (forall p : list R, Model2.feasible g p <-> Model1.feasible g p) /\
  (forall p : list R, length p = 24%nat ->
     Model2.cost_charge g 0 b p = Model1.objective_value g p /\
     Model2.cost_charge g 0 b p = Model2.cost_electricity g p) /\
  Model1.obj_minimization (Model1.objective g) = true /\
  (forall p1 p2 : list R,
     minimizes (Model1.feasible g) (Model1.objective_value g) p1 ->
     minimizes (Model2.feasible g) (Model2.cost_charge g 0 b) p2 ->
     Model2.cost_electricity g p1 = Model2.cost_electricity g p2).
Proof.
  intros Hc Hmin Hmax.
  assert (Hfeas : forall p, Model2.feasible g p <-> Model1.feasible g p)
    by (intro p; apply feasible_regions_agree; assumption).
  assert (Hlen : forall p, Model1.feasible g p -> length p = 24%nat)
    by (intros p Hp; apply Model1_feasible_iff in Hp; tauto).
  split; [exact Hfeas|]. split; [|split; [reflexivity|]].
  - intros p Hp. rewrite zero_base_rate_cost.
    split; [symmetry; apply objective_is_cost_electricity; assumption
           | reflexivity].
  - intros p1 p2 [F1 O1] [F2 O2].
    pose proof (O1 p2 (proj1 (Hfeas p2) F2)) as H12.
    pose proof (O2 p1 (proj2 (Hfeas p1) F1)) as H21.
    rewrite !zero_base_rate_cost in H21.
    rewrite !objective_is_cost_electricity in H12;
      try exact Hc; try (apply Hlen; tauto).
    + lra.
    + apply Hlen, Hfeas, F2.
Qed.

Lemma slot_sum_scal (n : nat) (c : R) (f : nat -> R) :
  slot_sum n (fun i => c * f i) = c * slot_sum n f.
Proof.
  induction n as [|n IH]; simpl.
  - ring.
  - rewrite IH. ring.
Qed.

(** The profile printed by notebook 08_31,
    [[0.0]*16 + [4.8, 6.6, 6.6] + [0.0]*5], is an optimum of its linear
    program, and its cost is the printed 2.4786. *)
Lemma printed_profile_optimal :
  let printed := py_repeat 0 16 ++ [4.8; 6.6; 6.6] ++ py_repeat 0 5 in
  minimizes (Model1.feasible Model1.notebook)
    (Model1.objective_value Model1.notebook) printed /\
  Model1.objective_value Model1.notebook printed = 2.4786.
Proof.
  intro printed.
  assert (Hval : Model1.objective_value Model1.notebook printed = 2.4786).
  { rewrite objective_value_slots by reflexivity.
    unfold printed. simpl. unfold LOW_COST, HIGH_COST. lra. }
  split; [|exact Hval]. split.
  - apply Model1_feasible_iff. split; [reflexivity|]. split; [|split].
    + intros i Hi.
      do 24 (destruct i as [|i]; [simpl; lra|]). lia.
    + simpl. lra.
    + intros n [Hn1 Hn2].
      destruct n as [|n]; [lia|].
      do 24 (destruct n as [|n]; [simpl; lra|]). lia.
  - intros q Hq. rewrite Hval.
    apply Model1_feasible_iff in Hq. destruct Hq as [Hl [Hb [Hc _]]].
    rewrite objective_value_slots by exact Hl.
    assert (Hpos : forall i, (i < 24)%nat -> 0 <= nth i q 0).
    { intros i Hi. specialize (Hb i Hi).
      unfold Model1.new_variable in Hb.
      destruct ((i <? T_MIN Model1.notebook)%nat ||
                (T_MAX Model1.notebook <=? i)%nat); simpl in Hb; lra. }
    assert (Hprice : forall i, (i < 24)%nat ->
              0.1377 <= nth i (ELECTRICITY_COSTS Model1.notebook) 0).
    { intros i Hi.
      do 24 (destruct i as [|i];
             [simpl; unfold LOW_COST, HIGH_COST; lra|]). lia. }
    assert (Htail : slot_sum 24 (fun i => nth i q 0) =
                    slot_sum 22 (fun i => nth i q 0)).
    { apply prefix_frozen; [lia|]. intros i Hi.
      specialize (Hb i ltac:(lia)). unfold Model1.new_variable in Hb.
      rewrite (proj2 (Nat.leb_le (T_MAX Model1.notebook) i)) in Hb
        by (simpl; lia).
      rewrite orb_true_r in Hb. simpl in Hb. lra. }
    change (Nat.min (T_MAX Model1.notebook) 24) with 22%nat in Hc.
    simpl Q_KWH in Hc. simpl STATE_OF_CHARGE_TCH in Hc.
    simpl STATE_OF_CHARGE_T0 in Hc.
    apply Rle_trans with (slot_sum 24 (fun i => 0.1377 * nth i q 0)).
    + rewrite slot_sum_scal, Htail. lra.
    + apply slot_sum_le. intros i Hi.
      specialize (Hpos i Hi). specialize (Hprice i Hi). nra.
Qed.

Lemma zero_degradation_reduction_witness :
  let printed := py_repeat 0 16 ++ [4.8; 6.6; 6.6] ++ py_repeat 0 5 in
  minimizes (Model2.feasible Model1.notebook)
    (Model2.cost_charge Model1.notebook 0 Model2.b) printed /\
  Model2.cost_electricity Model1.notebook printed = 2.4786 /\
  (forall p2 : list R,
     minimizes (Model2.feasible Model1.notebook)
       (Model2.cost_charge Model1.notebook 0 Model2.b) p2 ->
     Model2.cost_electricity Model1.notebook p2 = 2.4786).
Proof.
  intro printed.
  destruct (zero_degradation_reduction Model1.notebook Model2.b eq_refl
              ltac:(simpl; lia) ltac:(simpl; lia)) as [Hf [Ho [_ Hopt]]].
  destruct printed_profile_optimal as [[F1 O1] Hv]. fold printed in F1, O1, Hv.
  destruct (Ho printed eq_refl) as [E1 E2].
  assert (Hce : Model2.cost_electricity Model1.notebook printed = 2.4786)
    by (rewrite <- E2, E1; exact Hv).
  split; [split|split].
  - apply Hf. exact F1.
  - intros q Hq. apply Hf in Hq.
    assert (Hl : length q = 24%nat)
      by (apply Model1_feasible_iff in Hq; tauto).
    destruct (Ho q Hl) as [Eq _]. rewrite E1, Eq. apply O1. exact Hq.
  - exact Hce.
  - intros p2 H2. rewrite <- Hce. symmetry.
    apply (Hopt printed p2); [split; assumption | exact H2].
Defined.

(** * Further properties of the notebooks *)

(** ** The degradation term *)

Lemma slot_sum_add (n : nat) (f h : nat -> R) :
  slot_sum n (fun i => f i + h i) = slot_sum n f + slot_sum n h.
Proof.
  induction n as [|n IH]; simpl.
  - ring.
  - rewrite IH. ring.
Qed.

Lemma degradation_argument_nonneg (g : Globals) (b p : R) :
  0 <= b -> 0 < CHARGE_POWER_HIGHER_BOUND_KWH g ->
  0 <= b * Rabs p / CHARGE_POWER_HIGHER_BOUND_KWH g.
Proof.
  intros Hb HH. unfold Rdiv.
  apply Rmult_le_pos; [apply Rmult_le_pos; [exact Hb | apply Rabs_pos]|].
  left. apply Rinv_0_lt_compat. exact HH.
Qed.

(** X1.  [degradation_function] depends on the magnitude of the power
    only: it takes the same value at [-p] and [p], its value at 0 is the
    base rate, which is its minimum, and it grows strictly with [|p|]
    (positive base rate, decay rate and upper power bound). *)
Theorem degradation_function_shape (g : Globals) (a b : R) :
  0 < a -> 0 < b -> 0 < CHARGE_POWER_HIGHER_BOUND_KWH g ->
  (forall p, Model2.degradation_function g a b (- p) =
             Model2.degradation_function g a b p) /\
  Model2.degradation_function g a b 0 = a /\
  (forall p, a <= Model2.degradation_function g a b p) /\
  (forall p q, Rabs p < Rabs q ->
     Model2.degradation_function g a b p <
     Model2.degradation_function g a b q).
Proof.
  intros Ha Hb HH. unfold Model2.degradation_function.
  split; [|split; [|split]].
  - intro p. rewrite Rabs_Ropp. reflexivity.
  - rewrite Rabs_R0. unfold Rdiv. rewrite Rmult_0_r, Rmult_0_l, exp_0. ring.
  - intro p.
    pose proof (degradation_argument_nonneg g b p (Rlt_le _ _ Hb) HH) as Harg.
    pose proof (exp_monotone _ _ Harg) as He. rewrite exp_0 in He. nra.
  - intros p q Hpq. apply Rmult_lt_compat_l; [exact Ha|].
    apply exp_increasing. unfold Rdiv.
    apply Rmult_lt_compat_r; [apply Rinv_0_lt_compat; exact HH|].
    apply Rmult_lt_compat_l; assumption.
Qed.

Lemma degradation_function_shape_witness :
  Model2.degradation_function Model2.notebook Model2.a Model2.b (- 3) =
    Model2.degradation_function Model2.notebook Model2.a Model2.b 3 /\
  Model2.degradation_function Model2.notebook Model2.a Model2.b 0 = Model2.a /\
  Model2.degradation_function Model2.notebook Model2.a Model2.b 3 <
    Model2.degradation_function Model2.notebook Model2.a Model2.b (- 6.6).
Proof.
  destruct (degradation_function_shape Model2.notebook Model2.a Model2.b)
    as [Heven [H0 [_ Hinc]]].
  - unfold Model2.a. lra.
  - unfold Model2.b. lra.
  - simpl. lra.
  - split; [apply Heven|]. split; [exact H0|].
    apply Hinc. unfold Rabs. repeat destruct Rcase_abs; lra.
Defined.

(** Midpoint convexity of the degradation term. *)
Lemma degradation_function_midpoint (g : Globals) (a b p q : R) :
  0 <= a -> 0 <= b -> 0 < CHARGE_POWER_HIGHER_BOUND_KWH g ->
  2 * Model2.degradation_function g a b ((p + q) / 2) <=
  Model2.degradation_function g a b p + Model2.degradation_function g a b q.
Proof.
  intros Ha Hb HH. unfold Model2.degradation_function.
  set (H := CHARGE_POWER_HIGHER_BOUND_KWH g) in *.
  set (u := b * Rabs p / H). set (v := b * Rabs q / H).
  assert (Harg : b * Rabs ((p + q) / 2) / H <= u / 2 + v / 2).
  { assert (Hm : Rabs ((p + q) / 2) <= (Rabs p + Rabs q) / 2).
    { unfold Rdiv. rewrite Rabs_mult, (Rabs_pos_eq (/ 2)) by lra.
      pose proof (Rabs_triang p q). lra. }
    assert (Hi : 0 < / H) by (apply Rinv_0_lt_compat; exact HH).
    unfold u, v, Rdiv.
    replace (b * Rabs p * / H * / 2 + b * Rabs q * / H * / 2)
      with (b * ((Rabs p + Rabs q) * / 2) * / H) by ring.
    apply Rmult_le_compat_r; [lra|].
    apply Rmult_le_compat_l; [exact Hb | exact Hm]. }
  pose proof (exp_monotone _ _ Harg) as He. rewrite exp_plus in He.
  assert (Eu : exp u = exp (u / 2) * exp (u / 2))
    by (rewrite <- exp_plus; f_equal; lra).
  assert (Ev : exp v = exp (v / 2) * exp (v / 2))
    by (rewrite <- exp_plus; f_equal; lra).
  rewrite Eu, Ev.
  pose proof (exp_pos (u / 2)). pose proof (exp_pos (v / 2)).
  set (s := exp (u / 2)) in *. set (t := exp (v / 2)) in *.
  set (e := exp (b * Rabs ((p + q) / 2) / H)) in *.
  clearbody s t e. clear Eu Ev Harg.
  assert (Hsq : 0 <= (s - t) * (s - t)) by apply Rle_0_sqr.
  assert (H2 : 2 * e <= s * s + t * t) by nra.
  replace (2 * (a * e)) with (a * (2 * e)) by ring.
  replace (a * (s * s) + a * (t * t)) with (a * (s * s + t * t)) by ring.
  apply Rmult_le_compat_l; assumption.
Qed.

(** ** How the costs react to changes of the profile *)

Lemma cost_electricity_app (g : Globals) (l1 l : list R) :
  Model2.cost_electricity g (l1 ++ l) =
  Model2.cost_electricity g l1 +
  py_sum (map (fun '(p_, ep) => p_ * ep)
              (combine l (skipn (length l1) (ELECTRICITY_COSTS g)))).
Proof.
  unfold Model2.cost_electricity.
  generalize (ELECTRICITY_COSTS g) as prices.
  induction l1 as [|e t IH]; intro prices.
  - simpl. unfold py_sum at 2. simpl. ring.
  - destruct prices as [|ep prices].
    + simpl. rewrite !combine_nil. unfold py_sum. simpl. ring.
    + simpl. rewrite !py_sum_cons, IH. ring.
Qed.

Lemma cost_degradation_app (g : Globals) (a b : R) (l1 l2 : list R) :
  Model2.cost_degradation g a b (l1 ++ l2) =
  Model2.cost_degradation g a b l1 + Model2.cost_degradation g a b l2.
Proof.
  unfold Model2.cost_degradation. rewrite map_app, py_sum_app. ring.
Qed.

Lemma BATTERY_COST_nonneg (g : Globals) :
  0 <= Q_KWH g -> 0 <= Model2.BATTERY_COST g.
Proof. intro HQ. unfold Model2.BATTERY_COST. nra. Qed.

(** X2.  Replacing the powers of two consecutive slots that have the same
    price by their mean leaves [cost_electricity] unchanged and does not
    increase [cost_degradation], hence does not increase [cost_charge]
    (non-negative base rate, decay rate and capacity, positive upper power
    bound).  This is why the optimum is flat where the price is. *)
Theorem averaging_adjacent_slots (g : Globals) (a b : R)
    (before after : list R) (p q : R) :
  0 <= a -> 0 <= b -> 0 < CHARGE_POWER_HIGHER_BOUND_KWH g -> 0 <= Q_KWH g ->
  (S (length before) < length (ELECTRICITY_COSTS g))%nat ->
  nth (length before) (ELECTRICITY_COSTS g) 0 =
    nth (S (length before)) (ELECTRICITY_COSTS g) 0 ->
  let mean := (p + q) / 2 in
  Model2.cost_electricity g (before ++ mean :: mean :: after) =
    Model2.cost_electricity g (before ++ p :: q :: after) /\
  Model2.cost_degradation g a b (before ++ mean :: mean :: after) <=
    Model2.cost_degradation g a b (before ++ p :: q :: after) /\
  Model2.cost_charge g a b (before ++ mean :: mean :: after) <=
    Model2.cost_charge g a b (before ++ p :: q :: after).
Proof.
  intros Ha Hb HH HQ Hlen Hprice mean.
  assert (He : Model2.cost_electricity g (before ++ mean :: mean :: after) =
               Model2.cost_electricity g (before ++ p :: q :: after)).
  { rewrite !cost_electricity_app. f_equal.
    assert (Hsk : skipn (length before) (ELECTRICITY_COSTS g) =
                  nth (length before) (ELECTRICITY_COSTS g) 0 ::
                  nth (S (length before)) (ELECTRICITY_COSTS g) 0 ::
                  skipn (S (S (length before))) (ELECTRICITY_COSTS g)).
    { revert Hlen. generalize (ELECTRICITY_COSTS g) as prices.
      generalize (length before) as n.
      induction n as [|n IH]; intros [|e1 [|e2 prices]] Hl; simpl in Hl;
        try lia.
      - reflexivity.
      - simpl skipn at 1. rewrite IH by (simpl; lia). reflexivity. }
    rewrite Hsk, <- Hprice. simpl combine. simpl map.
    rewrite !py_sum_cons. unfold mean. lra. }
  assert (Hd : Model2.cost_degradation g a b (before ++ mean :: mean :: after)
               <= Model2.cost_degradation g a b (before ++ p :: q :: after)).
  { rewrite !cost_degradation_app. apply Rplus_le_compat_l.
    change (mean :: mean :: after) with ([mean; mean] ++ after).
    change (p :: q :: after) with ([p; q] ++ after).
    rewrite !cost_degradation_app. apply Rplus_le_compat_r.
    unfold Model2.cost_degradation. simpl map. rewrite !py_sum_cons.
    unfold py_sum. simpl fold_left.
    pose proof (degradation_function_midpoint g a b p q Ha Hb HH) as Hm.
    fold mean in Hm.
    apply Rmult_le_compat_l; [apply BATTERY_COST_nonneg, HQ | lra]. }
  split; [exact He|]. split; [exact Hd|].
  unfold Model2.cost_charge. rewrite He. lra.
Qed.

Lemma averaging_adjacent_slots_witness :
  Model2.cost_electricity Model2.notebook ([0] ++ 3 :: 3 :: repeat 0 21) =
    Model2.cost_electricity Model2.notebook ([0] ++ 6 :: 0 :: repeat 0 21) /\
  Model2.cost_degradation Model2.notebook Model2.a Model2.b
    ([0] ++ 3 :: 3 :: repeat 0 21) <=
    Model2.cost_degradation Model2.notebook Model2.a Model2.b
      ([0] ++ 6 :: 0 :: repeat 0 21) /\
  Model2.cost_charge Model2.notebook Model2.a Model2.b
    ([0] ++ 3 :: 3 :: repeat 0 21) <=
    Model2.cost_charge Model2.notebook Model2.a Model2.b
      ([0] ++ 6 :: 0 :: repeat 0 21).
Proof.
  replace 3 with ((6 + 0) / 2) by lra.
  apply (averaging_adjacent_slots Model2.notebook Model2.a Model2.b
           [0] (repeat 0 21) 6 0).
  - unfold Model2.a. lra.
  - unfold Model2.b. lra.
  - simpl. lra.
  - simpl. lra.
  - simpl. lia.
  - reflexivity.
Defined.

(** X3.  Whatever the profile, [cost_degradation] is at least
    [BATTERY_COST] times the number of slots times the base rate: idle slots
    are charged the base rate too (0.943488 for the 24 slots of the
    notebook). *)
Theorem cost_degradation_floor (g : Globals) (a b : R) (p : list R) :
  0 <= a -> 0 <= b -> 0 < CHARGE_POWER_HIGHER_BOUND_KWH g -> 0 <= Q_KWH g ->
  Model2.BATTERY_COST g * (INR (length p) * a) <=
  Model2.cost_degradation g a b p.
Proof.
  intros Ha Hb HH HQ. rewrite cost_degradation_slots.
  apply Rmult_le_compat_l; [apply BATTERY_COST_nonneg, HQ|].
  rewrite <- slot_sum_const. apply slot_sum_le. intros i _.
  unfold Model2.degradation_function.
  pose proof (degradation_argument_nonneg g b (nth i p 0) Hb HH) as Harg.
  pose proof (exp_monotone _ _ Harg) as He. rewrite exp_0 in He. nra.
Qed.

Lemma cost_degradation_floor_witness :
  0.943488 <=
  Model2.cost_degradation Model2.notebook Model2.a Model2.b Model2.p0.
Proof.
  pose proof (cost_degradation_floor Model2.notebook Model2.a Model2.b
                Model2.p0) as H.
  assert (E : Model2.BATTERY_COST Model2.notebook *
              (INR (length Model2.p0) * Model2.a) = 0.943488).
  { unfold Model2.BATTERY_COST, Model2.a, Model2.p0, py_repeat.
    rewrite repeat_length, INR_IZR_INZ. simpl. lra. }
  rewrite <- E. apply H.
  - unfold Model2.a. lra.
  - unfold Model2.b. lra.
  - simpl. lra.
  - simpl. lra.
Defined.

Lemma py_sum_Permutation (l l' : list R) :
  Permutation l l' -> py_sum l = py_sum l'.
Proof.
  induction 1 as [|e l l' _ IH|e1 e2 l|l l' l'' _ IH1 _ IH2].
  - reflexivity.
  - rewrite !py_sum_cons, IH. reflexivity.
  - rewrite !py_sum_cons. ring.
  - rewrite IH1. exact IH2.
Qed.

(** X4.  [cost_degradation] does not see the direction of the power nor
    the order of the slots: negating every entry of a profile, or permuting
    its entries, leaves it unchanged. *)
Theorem cost_degradation_symmetries (g : Globals) (a b : R) :
  (forall p, Model2.cost_degradation g a b (map Ropp p) =
             Model2.cost_degradation g a b p) /\
  (forall p p', Permutation p p' ->
     Model2.cost_degradation g a b p = Model2.cost_degradation g a b p').
Proof.
  split.
  - intro p. unfold Model2.cost_degradation. f_equal. rewrite map_map.
    f_equal. apply map_ext. intro e.
    unfold Model2.degradation_function. rewrite Rabs_Ropp. reflexivity.
  - intros p p' Hp. unfold Model2.cost_degradation. f_equal.
    apply py_sum_Permutation, Permutation_map, Hp.
Qed.

Lemma cost_degradation_symmetries_witness :
  Model2.cost_degradation Model2.notebook Model2.a Model2.b [3; -6.6] =
  Model2.cost_degradation Model2.notebook Model2.a Model2.b [-6.6; 3].
Proof.
  apply (cost_degradation_symmetries Model2.notebook Model2.a Model2.b).
  apply perm_swap.
Defined.

(** X5.  [cost_electricity] is linear in the profile: the cost of the
    entry-wise sum of two profiles of the same length is the sum of their
    costs, and scaling a profile scales its cost. *)
Theorem cost_electricity_linear (g : Globals) :
  (forall p q, length p = length q ->
     Model2.cost_electricity g (map (fun '(u, v) => u + v) (combine p q)) =
     Model2.cost_electricity g p + Model2.cost_electricity g q) /\
  (forall c p,
     Model2.cost_electricity g (map (Rmult c) p) =
     c * Model2.cost_electricity g p).
Proof.
  split.
  - intros p q Hl. rewrite !cost_electricity_slots.
    rewrite length_map, length_combine, <- Hl, Nat.min_id.
    rewrite <- slot_sum_add. apply slot_sum_ext. intros i Hi.
    rewrite (nth_map_in _ _ (0, 0)) by (rewrite length_combine; lia).
    rewrite nth_combine_in by lia. ring.
  - intros c p. rewrite !cost_electricity_slots, length_map.
    rewrite <- slot_sum_scal. apply slot_sum_ext. intros i Hi.
    rewrite (nth_map_in _ _ 0) by lia. ring.
Qed.

Lemma cost_electricity_linear_witness :
  Model2.cost_electricity Model2.notebook
    (map (fun '(u, v) => u + v) (combine [1; 2] [3; 4])) =
  Model2.cost_electricity Model2.notebook [1; 2] +
  Model2.cost_electricity Model2.notebook [3; 4].
Proof.
  apply (cost_electricity_linear Model2.notebook). reflexivity.
Defined.

(** ** The constraint model, continued *)

(** X6.  The two lists handed to [Bounds] have 24 entries exactly when
    [T_MIN <= T_MAX <= 24]; with a reversed window or a deadline after the
    day they are longer than the 24-entry profile. *)
Theorem bounds_length (g : Globals) :
  (length (Model2.bounds_lb (Model2.bounds g)) = 24%nat <->
   (T_MIN g <= T_MAX g <= 24)%nat) /\
  (length (Model2.bounds_ub (Model2.bounds g)) = 24%nat <->
   (T_MIN g <= T_MAX g <= 24)%nat) /\
  (24 <= length (Model2.bounds_lb (Model2.bounds g)))%nat.
Proof.
  simpl. rewrite length_lb_box, length_ub_box. lia.
Qed.

Lemma bounds_length_witness :
  length (Model2.bounds_lb (Model2.bounds Model2.notebook)) = 24%nat.
Proof.
  apply (bounds_length Model2.notebook). simpl. lia.
Defined.

(** X7.  The initial guess [p0 = [1]*24] lies outside the box as soon as
    the window is not the whole day: the solver starts from an infeasible
    point. *)
Theorem initial_guess_infeasible (g : Globals) :
  (0 < T_MIN g \/ T_MAX g < 24)%nat ->
  ~ Model2.Bounds_holds (Model2.bounds g) Model2.p0 /\
  ~ Model2.feasible g Model2.p0.
Proof.
  intro Hw.
  assert (Hb : ~ Model2.Bounds_holds (Model2.bounds g) Model2.p0).
  { intros [_ Hub]. apply Forall2_Rle_nth in Hub. destruct Hub as [_ Hub].
    change (length Model2.p0) with 24%nat in Hub. simpl in Hub.
    unfold Model2.ub_box in Hub.
    destruct Hw as [Hmin | Hmax].
    - specialize (Hub 0%nat ltac:(lia)). rewrite nth_window in Hub.
      rewrite (proj2 (Nat.ltb_lt 0 (T_MIN g)) Hmin) in Hub.
      simpl in Hub. lra.
    - specialize (Hub 23%nat ltac:(lia)). rewrite nth_window in Hub.
      rewrite (proj2 (Nat.leb_le (T_MAX g) 23)) in Hub by lia.
      rewrite orb_true_r in Hub. simpl in Hub. lra. }
  split; [exact Hb | intros [H _]; exact (Hb H)].
Qed.

Lemma initial_guess_infeasible_witness :
  ~ Model2.Bounds_holds (Model2.bounds Model2.notebook) Model2.p0 /\
  ~ Model2.feasible Model2.notebook Model2.p0.
Proof.
  apply (initial_guess_infeasible Model2.notebook). left. simpl. lia.
Defined.

Lemma nth_cumsum_from (l : list R) :
  forall (acc : R) (k : nat), (k < length l)%nat ->
  nth k (cumsum_from acc l) 0 = acc + slot_sum (S k) (fun i => nth i l 0).
Proof.
  induction l as [|e t IH]; intros acc k Hk; simpl in Hk; [lia|].
  destruct k as [|k].
  - simpl. ring.
  - simpl cumsum_from. simpl nth at 1. rewrite IH by lia.
    rewrite (slot_sum_shift (S k)). simpl nth. ring.
Qed.

Lemma length_cumsum_from (l : list R) (acc : R) :
  length (cumsum_from acc l) = length l.
Proof.
  revert acc. induction l as [|e t IH]; intro acc; simpl;
    [reflexivity | rewrite IH; reflexivity].
Qed.

Lemma nth_cumsum (l : list R) (k : nat) :
  (k < length l)%nat ->
  nth k (cumsum l) 0 = slot_sum (S k) (fun i => nth i l 0).
Proof.
  intro Hk. unfold cumsum. rewrite nth_cumsum_from by exact Hk. ring.
Qed.

(** X8.  Every feasible profile of Model 2 keeps the vehicle charge
    [np.cumsum(p) + Q_KWH*STATE_OF_CHARGE_T0] at or below [Q_KWH] in every
    slot, at or above 0 in the slots before [T_MAX], and at or above
    [STATE_OF_CHARGE_TCH*Q_KWH] in the slots from [T_MAX] on. *)
Theorem feasible_charge_trajectory (g : Globals) (p : list R) (k : nat) :
  (T_MIN g <= T_MAX g <= 24)%nat ->
  Model2.feasible g p ->
  (k < 24)%nat ->
  let charge :=
    nth k (map (fun c => c + Q_KWH g * STATE_OF_CHARGE_T0 g) (cumsum p)) 0 in
  charge <= Q_KWH g /\
  ((k < T_MAX g)%nat -> 0 <= charge) /\
  ((T_MAX g <= k)%nat -> STATE_OF_CHARGE_TCH g * Q_KWH g <= charge).
Proof.
  intros Hw Hf Hk charge.
  apply Model2_feasible_iff in Hf; [|exact Hw].
  destruct Hf as [Hl [_ Hs]]. specialize (Hs k Hk).
  rewrite lb_soc_row, ub_soc_row in Hs by exact Hk.
  assert (Hc : charge = slot_sum (S k) (fun i => nth i p 0) +
                        Q_KWH g * STATE_OF_CHARGE_T0 g).
  { unfold charge.
    rewrite (nth_map_in _ _ 0)
      by (unfold cumsum; rewrite length_cumsum_from; lia).
    rewrite nth_cumsum by lia. reflexivity. }
  rewrite Hc. split; [lra|]. split; intro Hk'.
  - rewrite (proj2 (Nat.ltb_lt k (T_MAX g)) Hk') in Hs. lra.
  - rewrite (proj2 (Nat.ltb_ge k (T_MAX g)) Hk') in Hs. lra.
Qed.

(** X9.  In a feasible profile, of Model 2 or of Model 1, the power is 0
    in every slot outside the window. *)
Theorem feasible_window (g : Globals) (p : list R) (i : nat) :
  Model2.feasible g p \/ Model1.feasible g p ->
  (i < 24)%nat ->
  (i < T_MIN g \/ T_MAX g <= i)%nat ->
  nth i p 0 = 0.
Proof.
  intros Hf Hi Hout.
  assert (Hc : (i <? T_MIN g)%nat || (T_MAX g <=? i)%nat = true).
  { apply orb_true_iff. destruct Hout as [H | H].
    - left. apply Nat.ltb_lt. exact H.
    - right. apply Nat.leb_le. exact H. }
  destruct Hf as [[[Hlo Hhi] _] | Hf].
  - simpl in Hlo, Hhi.
    apply Forall2_Rle_nth in Hlo. apply Forall2_Rle_nth in Hhi.
    destruct Hlo as [El Hlo]. destruct Hhi as [_ Hhi].
    pose proof (length_lb_box g) as Hlen.
    specialize (Hlo i ltac:(lia)). specialize (Hhi i ltac:(lia)).
    unfold Model2.lb_box in Hlo. unfold Model2.ub_box in Hhi.
    rewrite nth_window, Hc in Hlo. rewrite nth_window, Hc in Hhi. lra.
  - apply Model1_feasible_iff in Hf. destruct Hf as [_ [Hb _]].
    specialize (Hb i Hi). unfold Model1.new_variable in Hb.
    rewrite Hc in Hb. simpl in Hb. lra.
Qed.

(** The profile printed by notebook 08_31 also fits Model 2 as the second
    notebook sets it up. *)
Lemma printed_profile_feasible :
  Model2.feasible Model2.notebook
    (py_repeat 0 16 ++ [4.8; 6.6; 6.6] ++ py_repeat 0 5).
Proof.
  apply Model2_feasible_iff; [simpl; lia|].
  split; [reflexivity|]. split.
  - intros i Hi. do 24 (destruct i as [|i]; [simpl; lra|]). lia.
  - intros k Hk. rewrite lb_soc_row, ub_soc_row by exact Hk.
    do 24 (destruct k as [|k]; [simpl; lra|]). lia.
Qed.

Lemma feasible_charge_trajectory_witness :
  let charge :=
    nth 23 (map (fun c => c + Q_KWH Model2.notebook *
                              STATE_OF_CHARGE_T0 Model2.notebook)
                (cumsum (py_repeat 0 16 ++ [4.8; 6.6; 6.6] ++ py_repeat 0 5)))
        0 in
  charge <= 30 /\ 0.90 * 30 <= charge.
Proof.
  intro charge.
  destruct (feasible_charge_trajectory Model2.notebook
              (py_repeat 0 16 ++ [4.8; 6.6; 6.6] ++ py_repeat 0 5) 23%nat)
    as [Hup [_ Hlow]].
  - simpl. lia.
  - exact printed_profile_feasible.
  - lia.
  - split; [exact Hup | apply Hlow; simpl; lia].
Defined.

Lemma feasible_window_witness :
  nth 22 (py_repeat 0 16 ++ [4.8; 6.6; 6.6] ++ py_repeat 0 5) 0 = 0.
Proof.
  apply (feasible_window Model2.notebook _ 22%nat).
  - left. exact printed_profile_feasible.
  - lia.
  - right. simpl. lia.
Defined.

Lemma slot_sum_repeat_zero (n k : nat) :
  slot_sum n (fun i => nth i (repeat 0 k) 0) = 0.
Proof.
  apply slot_sum_zero. intros i _. apply nth_repeat.
Qed.

(** X10.  When [T_MAX] is 24 the slice [lb[T_MAX:]] is empty and no row
    of Model 2 carries the target: the idle profile is then feasible for
    Model 2, although Model 1, which sums [variables[:T_MAX]], rejects it
    (capacity and fractions in their usual ranges, a positive amount of
    energy to deliver). *)
Theorem full_day_window_drops_target (g : Globals) :
  T_MAX g = 24%nat -> (T_MIN g <= 24)%nat ->
  CHARGE_POWER_LOWER_BOUND_KWH g <= 0 <= CHARGE_POWER_HIGHER_BOUND_KWH g ->
  0 <= STATE_OF_CHARGE_T0 g <= 1 -> 0 <= Q_KWH g ->
  0 < Q_KWH g * (STATE_OF_CHARGE_TCH g - STATE_OF_CHARGE_T0 g) ->
  Model2.feasible g (repeat 0 24) /\ ~ Model1.feasible g (repeat 0 24).
Proof.
  intros Hmax Hmin Hbox Hsoc HQ Hneed. split.
  - apply Model2_feasible_iff; [lia|].
    split; [apply repeat_length|]. split.
    + intros i Hi. rewrite nth_repeat.
      unfold Model2.lb_box, Model2.ub_box. rewrite !nth_window.
      destruct ((i <? T_MIN g)%nat || (T_MAX g <=? i)%nat); lra.
    + intros k Hk. rewrite lb_soc_row, ub_soc_row by exact Hk.
      rewrite (proj2 (Nat.ltb_lt k (T_MAX g))) by lia.
      rewrite slot_sum_repeat_zero. nra.
  - intro Hf. apply Model1_feasible_iff in Hf.
    destruct Hf as [_ [_ [Hc _]]].
    rewrite slot_sum_repeat_zero in Hc. lra.
Qed.

Lemma full_day_window_drops_target_witness :
  let full_day := {| ELECTRICITY_COSTS := tarif_bleu;
                     STATE_OF_CHARGE_T0 := 0.30;
                     STATE_OF_CHARGE_TCH := 0.90;
                     Q_KWH := 30;
                     CHARGE_POWER_LOWER_BOUND_KWH := -6.6;
                     CHARGE_POWER_HIGHER_BOUND_KWH := 6.6;
                     T_MIN := 1;
                     T_MAX := 24 |} in
  Model2.feasible full_day (repeat 0 24) /\
  ~ Model1.feasible full_day (repeat 0 24).
Proof.
  intro full_day. apply (full_day_window_drops_target full_day).
  - reflexivity.
  - simpl. lia.
  - simpl. lra.
  - simpl. lra.
  - simpl. lra.
  - simpl. lra.
Defined.

Lemma slot_sum_window_cap (t_min t_max : nat) (v : R) :
  (t_min <= t_max)%nat ->
  slot_sum t_max (fun i => if (i <? t_min)%nat then 0 else v) =
  INR (t_max - t_min) * v.
Proof.
  intro H. replace t_max with (t_min + (t_max - t_min))%nat at 1 by lia.
  rewrite slot_sum_plus.
  rewrite (slot_sum_zero t_min).
  - rewrite (slot_sum_ext _ _ (fun _ => v)).
    + rewrite slot_sum_const. ring.
    + intros i _. rewrite (proj2 (Nat.ltb_ge (t_min + i) t_min)) by lia.
      reflexivity.
  - intros i Hi. rewrite (proj2 (Nat.ltb_lt i t_min) Hi). reflexivity.
Qed.

(** X11.  The linear program of Model 1 can only be feasible when the
    window is long enough: the energy to deliver,
    [Q_KWH*(STATE_OF_CHARGE_TCH-STATE_OF_CHARGE_T0)], is at most the number
    of slots of the window times the upper power bound.  The notebook does
    not check this; a window that is too short only shows as an infeasible
    program. *)
Theorem window_long_enough (g : Globals) (p : list R) :
  (T_MIN g <= T_MAX g <= 24)%nat ->
  Model1.feasible g p ->
  Q_KWH g * (STATE_OF_CHARGE_TCH g - STATE_OF_CHARGE_T0 g) <=
  INR (T_MAX g - T_MIN g) * CHARGE_POWER_HIGHER_BOUND_KWH g.
Proof.
  intros Hw Hf. apply Model1_feasible_iff in Hf.
  destruct Hf as [_ [Hb [[Hc _] _]]].
  rewrite Nat.min_l in Hc by lia.
  apply Rle_trans with (1 := Hc).
  rewrite <- slot_sum_window_cap by lia.
  apply slot_sum_le. intros i Hi.
  specialize (Hb i ltac:(lia)). unfold Model1.new_variable in Hb.
  rewrite (proj2 (Nat.leb_gt (T_MAX g) i)) in Hb by lia.
  rewrite orb_false_r in Hb.
  destruct (i <? T_MIN g)%nat; simpl in Hb; lra.
Qed.

Lemma window_long_enough_witness :
  Q_KWH Model1.notebook *
    (STATE_OF_CHARGE_TCH Model1.notebook - STATE_OF_CHARGE_T0 Model1.notebook)
  <= INR (T_MAX Model1.notebook - T_MIN Model1.notebook) *
     CHARGE_POWER_HIGHER_BOUND_KWH Model1.notebook.
Proof.
  apply (window_long_enough Model1.notebook
           (py_repeat 0 16 ++ [4.8; 6.6; 6.6] ++ py_repeat 0 5)).
  - simpl. lia.
  - apply printed_profile_optimal.
Defined.

(** ** The linear program of Model 1, continued *)

Lemma feasible_window_zero (g : Globals) (sol : list R) (i : nat) :
  Model1.feasible g sol -> (i < 24)%nat -> (T_MAX g <= i)%nat ->
  nth i sol 0 = 0.
Proof.
  intros Hf Hi Hout. apply Model1_feasible_iff in Hf.
  destruct Hf as [_ [Hb _]]. specialize (Hb i Hi).
  unfold Model1.new_variable in Hb.
  rewrite (proj2 (Nat.leb_le (T_MAX g) i) Hout), orb_true_r in Hb.
  simpl in Hb. lra.
Qed.

(** X12.  With a non-negative lower power bound, the objective of Model 1
    at any feasible solution is at least the cheapest price times the
    energy to deliver. *)
Theorem lp_cost_lower_bound (g : Globals) (cheapest : R) (sol : list R) :
  0 <= cheapest ->
  (forall i, (i < 24)%nat -> cheapest <= nth i (ELECTRICITY_COSTS g) 0) ->
  0 <= CHARGE_POWER_LOWER_BOUND_KWH g ->
  Model1.feasible g sol ->
  cheapest * (Q_KWH g * (STATE_OF_CHARGE_TCH g - STATE_OF_CHARGE_T0 g)) <=
  Model1.objective_value g sol.
Proof.
  intros Hc Hprice Hlow Hf.
  pose proof Hf as Hf'. apply Model1_feasible_iff in Hf'.
  destruct Hf' as [Hl [Hb [[Hneed _] _]]].
  rewrite objective_value_slots by exact Hl.
  assert (Hpos : forall i, (i < 24)%nat -> 0 <= nth i sol 0).
  { intros i Hi. specialize (Hb i Hi). unfold Model1.new_variable in Hb.
    destruct ((i <? T_MIN g)%nat || (T_MAX g <=? i)%nat); simpl in Hb; lra. }
  assert (Htail : slot_sum 24 (fun i => nth i sol 0) =
                  slot_sum (Nat.min (T_MAX g) 24) (fun i => nth i sol 0)).
  { apply prefix_frozen; [lia|]. intros i Hi.
    apply (feasible_window_zero g sol i); [exact Hf | lia | lia]. }
  apply Rle_trans with (slot_sum 24 (fun i => cheapest * nth i sol 0)).
  - rewrite slot_sum_scal, Htail. apply Rmult_le_compat_l; assumption.
  - apply slot_sum_le. intros i Hi.
    specialize (Hpos i Hi). specialize (Hprice i Hi). nra.
Qed.

Lemma tarif_bleu_cheapest (i : nat) :
  (i < 24)%nat -> 0.1377 <= nth i tarif_bleu 0.
Proof.
  intro Hi.
  do 24 (destruct i as [|i]; [simpl; unfold LOW_COST, HIGH_COST; lra|]). lia.
Qed.

Lemma lp_cost_lower_bound_witness :
  0.1377 * (30 * (0.90 - 0.30)) <=
  Model1.objective_value Model1.notebook
    (py_repeat 0 16 ++ [4.8; 6.6; 6.6] ++ py_repeat 0 5).
Proof.
  apply (lp_cost_lower_bound Model1.notebook 0.1377).
  - lra.
  - exact tarif_bleu_cheapest.
  - simpl. lra.
  - apply printed_profile_optimal.
Defined.

(** X13.  The output stored in notebook 08_31 is right: the printed
    profile [[0.0]*16 + [4.8, 6.6, 6.6] + [0.0]*5] is feasible, no feasible
    solution of the linear program costs less than 2.4786, and the printed
    profile costs exactly that, the "Total balance" of the output. *)
Theorem lp_printed_output_optimal :
  let printed := py_repeat 0 16 ++ [4.8; 6.6; 6.6] ++ py_repeat 0 5 in
  Model1.feasible Model1.notebook printed /\
  Model1.objective_value Model1.notebook printed = 2.4786 /\
  (forall sol, Model1.feasible Model1.notebook sol ->
     2.4786 <= Model1.objective_value Model1.notebook sol).
Proof.
  intro printed.
  destruct printed_profile_optimal as [[Hf Ho] Hv].
  fold printed in Hf, Ho, Hv.
  split; [exact Hf|]. split; [exact Hv|].
  intros sol Hsol. rewrite <- Hv. apply Ho. exact Hsol.
Qed.

Lemma lp_printed_output_optimal_witness :
  2.4786 <=
  Model1.objective_value Model1.notebook
    (py_repeat 0 16 ++ [6.6; 6.6; 4.8] ++ py_repeat 0 5).
Proof.
  apply lp_printed_output_optimal.
  apply Model1_feasible_iff. split; [reflexivity|]. split; [|split].
  - intros i Hi. do 24 (destruct i as [|i]; [simpl; lra|]). lia.
  - simpl. lra.
  - intros n [Hn1 Hn2]. destruct n as [|n]; [lia|].
    do 24 (destruct n as [|n]; [simpl; lra|]). lia.
Defined.

(** X14.  What the loops of notebook 08_31 leave in the solver: the row
    built for [i] has coefficient 1 on the variables of rank below
    [min(i, 24)] and 0 on the others, between [-Q_KWH*STATE_OF_CHARGE_T0]
    and [Q_KWH*(1-STATE_OF_CHARGE_T0)]; the deadline row has coefficient 1
    below [min(T_MAX, 24)]; and the objective, to be minimised, gives the
    variable of rank [j] the price of slot [j]. *)
Theorem lp_rows (g : Globals) (i j : nat) :
  (Model1.ct_coef (Model1.ct_bounded_charge g i) j =
     (if (j <? Nat.min i 24)%nat then 1 else 0) /\
   Model1.ct_lb (Model1.ct_bounded_charge g i) =
     - Q_KWH g * STATE_OF_CHARGE_T0 g /\
   Model1.ct_ub (Model1.ct_bounded_charge g i) =
     Q_KWH g * (1 - STATE_OF_CHARGE_T0 g)) /\
  (Model1.ct_coef (Model1.ct_charge_vehicle_before_tmax g) j =
     (if (j <? Nat.min (T_MAX g) 24)%nat then 1 else 0) /\
   Model1.ct_lb (Model1.ct_charge_vehicle_before_tmax g) =
     Q_KWH g * (STATE_OF_CHARGE_TCH g - STATE_OF_CHARGE_T0 g) /\
   Model1.ct_ub (Model1.ct_charge_vehicle_before_tmax g) =
     Q_KWH g * (1 - STATE_OF_CHARGE_T0 g)) /\
  Model1.obj_coef (Model1.objective g) j =
    (if (j <? 24)%nat then nth j (ELECTRICITY_COSTS g) 0 else 0) /\
  Model1.obj_minimization (Model1.objective g) = true /\
  length (Model1.constraints g) = 25%nat.
Proof.
  split; [|split; [|split; [|split]]].
  - unfold Model1.ct_bounded_charge. rewrite firstn_variables.
    match goal with
    | |- context [fold_left _ _ ?c] =>
        destruct (SetCoefficient_loop g c (Nat.min i 24)) as [Hl [Hu Hc]]
    end.
    rewrite Hl, Hu, Hc. simpl. repeat split.
  - unfold Model1.ct_charge_vehicle_before_tmax. rewrite firstn_variables.
    match goal with
    | |- context [fold_left _ _ ?c] =>
        destruct (SetCoefficient_loop g c (Nat.min (T_MAX g) 24))
          as [Hl [Hu Hc]]
    end.
    rewrite Hl, Hu, Hc. simpl. repeat split.
  - apply obj_coef_objective.
  - reflexivity.
  - reflexivity.
Qed.

(** ** What cell 6 prints *)

Lemma round_half_even_error (y : R) :
  Rabs (IZR (round_half_even y) - y) <= 1 / 2.
Proof.
  unfold round_half_even.
  pose proof (base_Int_part y) as [Hlo Hhi].
  set (f := Int_part y) in *.
  destruct (Rlt_dec (y - IZR f) (1 / 2)) as [H1 | H1].
  - apply Rabs_le. lra.
  - destruct (Rlt_dec (1 / 2) (y - IZR f)) as [H2 | H2].
    + rewrite plus_IZR. apply Rabs_le. lra.
    + destruct (Z.even f); [|rewrite plus_IZR]; apply Rabs_le; lra.
Qed.

(** [round(v, ndigits)] is within half a unit of the last digit kept. *)
Lemma py_round_error (v : R) (ndigits : nat) :
  Rabs (py_round v ndigits - v) <= / (2 * 10 ^ ndigits).
Proof.
  unfold py_round.
  assert (Hp : 0 < 10 ^ ndigits) by (apply pow_lt; lra).
  set (T := 10 ^ ndigits) in *.
  pose proof (round_half_even_error (v * T)) as He.
  set (z := IZR (round_half_even (v * T))) in *.
  replace (z / T - v) with ((z - v * T) * / T) by (field; lra).
  rewrite Rabs_mult, (Rabs_pos_eq (/ T))
    by (left; apply Rinv_0_lt_compat; exact Hp).
  rewrite Rinv_mult.
  apply Rmult_le_compat_r; [left; apply Rinv_0_lt_compat; exact Hp | lra].
Qed.

(** X15.  The "Resulting vehicle charge" of cell 6 is computed from the
    rounded profile, not from [res.x]: its entry [k] can differ from the
    charge [Q_KWH*STATE_OF_CHARGE_T0 + res.x[0] + ... + res.x[k]] of the
    solution itself, by at most [(k+1) * 0.005]. *)
Theorem printed_charge_error (g : Globals) (a b : R)
    (res : Model2.OptimizeResult) (k : nat) :
  (k < length (Model2.x res))%nat ->
  Rabs (nth k (Model2.charge_line (Model2.cell6 g a b res)) 0 -
        (slot_sum (S k) (fun i => nth i (Model2.x res) 0) +
         Q_KWH g * STATE_OF_CHARGE_T0 g))
  <= INR (S k) * 0.005.
Proof.
  intro Hk. simpl Model2.charge_line.
  set (xs := Model2.x res) in *.
  rewrite (nth_map_in _ _ 0)
    by (unfold cumsum; rewrite length_cumsum_from, length_map; exact Hk).
  rewrite nth_cumsum by (rewrite length_map; exact Hk).
  match goal with
  | |- Rabs ?e <= _ =>
      replace e with
        (slot_sum (S k) (fun i => py_round (nth i xs 0) 2 - nth i xs 0))
  end.
  - apply slot_sum_abs_le. intros i _.
    pose proof (py_round_error (nth i xs 0) 2) as He.
    replace (/ (2 * 10 ^ 2)) with 0.005 in He by (simpl; lra). exact He.
  - unfold Rminus at 1.
    rewrite slot_sum_add.
    rewrite <- (Rmult_1_l (slot_sum (S k) (fun i => - nth i xs 0))).
    rewrite (slot_sum_ext (S k) (fun i => - nth i xs 0)
               (fun i => -1 * nth i xs 0)) by (intros; ring).
    rewrite slot_sum_scal.
    rewrite (slot_sum_ext (S k)
               (fun i => nth i (map (fun rx => py_round rx 2) xs) 0)
               (fun i => py_round (nth i xs 0) 2)).
    + ring.
    + intros i Hi.
      rewrite (nth_map_in (fun rx => py_round rx 2) xs 0) by lia.
      reflexivity.
Qed.

Lemma printed_charge_error_witness :
  Rabs (nth 0 (Model2.charge_line
                 (Model2.cell6 Model2.notebook Model2.a Model2.b
                    {| Model2.x := [4.354]; Model2.status := 1 |})) 0 -
        (slot_sum 1 (fun i => nth i [4.354] 0) +
         Q_KWH Model2.notebook * STATE_OF_CHARGE_T0 Model2.notebook))
  <= INR 1 * 0.005.
Proof.
  apply (printed_charge_error Model2.notebook Model2.a Model2.b
           {| Model2.x := [4.354]; Model2.status := 1 |} 0%nat).
  simpl. lia.
Defined.

(** ** The cumulative-sum matrix for any horizon *)

Lemma length_tril (v : list Z) : length (tril v) = length v.
Proof. unfold tril, tri. rewrite !length_map, length_seq. reflexivity. Qed.

Lemma tril_row (v : list Z) (i : nat) :
  (i < length v)%nat ->
  nth i (tril v) [] =
  map (fun '(keep, e) => if (keep : bool) then e else 0%Z)
      (combine (map (fun j => (j <=? i)%nat) (seq 0 (length v))) v).
Proof.
  intro Hi. unfold tril, tri. rewrite map_map.
  rewrite nth_map_seq by exact Hi. reflexivity.
Qed.

Lemma length_tril_row (v : list Z) (i : nat) :
  (i < length v)%nat -> length (nth i (tril v) []) = length v.
Proof.
  intro Hi. rewrite tril_row by exact Hi.
  rewrite length_map, length_combine, length_map, length_seq. lia.
Qed.

Lemma tril_entry (v : list Z) (i j : nat) :
  (i < length v)%nat -> (j < length v)%nat ->
  nth j (nth i (tril v) []) 0%Z = if (j <=? i)%nat then nth j v 0%Z else 0%Z.
Proof.
  intros Hi Hj. rewrite tril_row by exact Hi.
  set (f := fun '(keep, e) => if (keep : bool) then e else 0%Z).
  change 0%Z with (f (false, 0%Z)) at 1. rewrite map_nth.
  rewrite nth_combine_in
    by (rewrite ?length_map, ?length_seq; exact Hj).
  rewrite nth_map_seq by exact Hj. reflexivity.
Qed.

Lemma firstn_skipn_exact {A} (r l : list A) :
  firstn (length r) (r ++ l) = r /\ skipn (length r) (r ++ l) = l.
Proof.
  induction r as [|e r [IH1 IH2]]; simpl.
  - split; reflexivity.
  - rewrite IH1, IH2. split; reflexivity.
Qed.

Lemma chunks_concat (cols : nat) (arr : list (list Z)) :
  Forall (fun row => length row = cols) arr ->
  chunks (length arr) cols (concat arr) = arr.
Proof.
  induction 1 as [|row arr Hrow _ IH]; simpl.
  - reflexivity.
  - subst cols. destruct (firstn_skipn_exact row (concat arr)) as [E1 E2].
    rewrite E1, E2, IH. reflexivity.
Qed.

(** X16.  [reshape] to the shape an array already has changes nothing:
    for [rows] rows of [cols] entries each, regrouping the flattened
    entries gives the array back.  Hence the [.reshape((24,24))] of cell 4
    is the identity on the result of [np.tril]. *)
Theorem reshape_same_shape (rows cols : nat) (arr : list (list Z)) :
  length arr = rows ->
  Forall (fun row => length row = cols) arr ->
  reshape rows cols arr = arr.
Proof.
  intros Hr Hc. subst rows. unfold reshape. apply chunks_concat. exact Hc.
Qed.

Lemma tril_rows_square (v : list Z) :
  Forall (fun row => length row = length v) (tril v).
Proof.
  apply Forall_forall. intros row Hin.
  apply (In_nth _ _ []) in Hin. destruct Hin as [i [Hi E]].
  rewrite length_tril in Hi. subst row. apply length_tril_row. exact Hi.
Qed.

Lemma reshape_same_shape_witness :
  reshape 24 24 (tril (py_repeat 1%Z 24)) = tril (py_repeat 1%Z 24).
Proof.
  apply (reshape_same_shape 24 24 (tril (py_repeat 1%Z 24))).
  - reflexivity.
  - apply (tril_rows_square (py_repeat 1%Z 24)).
Defined.

Lemma tril_ones_row (n i : nat) :
  (i < n)%nat ->
  nth i (tril (py_repeat 1%Z n)) [] =
  repeat 1%Z (S i) ++ repeat 0%Z (n - S i).
Proof.
  intro Hi. unfold py_repeat.
  assert (Hn : length (repeat 1%Z n) = n) by apply repeat_length.
  apply (nth_ext _ _ 0%Z 0%Z).
  - rewrite length_tril_row by (rewrite Hn; exact Hi).
    rewrite Hn, length_app, !repeat_length. lia.
  - intros j Hj. rewrite length_tril_row in Hj by (rewrite Hn; exact Hi).
    rewrite Hn in Hj.
    rewrite tril_entry by (rewrite Hn; assumption).
    destruct (j <=? i)%nat eqn:E.
    + apply Nat.leb_le in E.
      rewrite app_nth1 by (rewrite repeat_length; lia).
      rewrite !nth_repeat_lt by lia. reflexivity.
    + apply Nat.leb_gt in E.
      rewrite app_nth2 by (rewrite repeat_length; lia).
      rewrite nth_repeat. reflexivity.
Qed.

(** X17.  Nothing in the construction of the matrix depends on the
    horizon being 24: for every [n], [np.tril([1]*n).reshape((n,n))] has
    entry (i, j) equal to 1 for [j <= i] and 0 otherwise, and its product
    with a vector of [n] reals is the [np.cumsum] of that vector. *)
Theorem cumulative_sum_matrix_any_horizon (n : nat) :
  let mat := reshape n n (tril (py_repeat 1%Z n)) in
  (forall i j, (i < n)%nat -> (j < n)%nat ->
     nth j (nth i mat []) 0%Z = if (j <=? i)%nat then 1%Z else 0%Z) /\
  (forall p : list R, length p = n -> matvec mat p = cumsum p).
Proof.
  intro mat.
  assert (Hn : length (py_repeat 1%Z n) = n) by apply repeat_length.
  assert (Hmat : mat = tril (py_repeat 1%Z n)).
  { unfold mat, reshape.
    pose proof (tril_rows_square (py_repeat 1%Z n)) as Hsq.
    rewrite Hn in Hsq. apply chunks_concat in Hsq.
    rewrite length_tril, Hn in Hsq. exact Hsq. }
  rewrite Hmat. split.
  - intros i j Hi Hj. rewrite tril_entry by (rewrite Hn; assumption).
    unfold py_repeat. rewrite nth_repeat_lt by exact Hj. reflexivity.
  - intros p Hp. apply (nth_ext _ _ 0 0).
    + rewrite length_matvec, length_tril, Hn. unfold cumsum.
      rewrite length_cumsum_from. symmetry. exact Hp.
    + intros k Hk. rewrite length_matvec, length_tril, Hn in Hk.
      unfold matvec.
      rewrite (nth_map_in _ _ []) by (rewrite length_tril, Hn; exact Hk).
      rewrite tril_ones_row by exact Hk. rewrite dot_ones_zeros.
      rewrite nth_cumsum by lia. reflexivity.
Qed.

Lemma cumulative_sum_matrix_any_horizon_witness :
  nth 1 (nth 2 (reshape 3 3 (tril (py_repeat 1%Z 3))) []) 0%Z = 1%Z /\
  matvec (reshape 3 3 (tril (py_repeat 1%Z 3))) [1; 2; 3] = cumsum [1; 2; 3].
Proof.
  destruct (cumulative_sum_matrix_any_horizon 3) as [He Hv]. split.
  - apply (He 2%nat 1%nat); lia.
  - apply (Hv [1; 2; 3]). reflexivity.
Defined.

(** ** More on what is printed and on degenerate constants *)

Lemma Rabs_le_bounds (v c : R) : Rabs v <= c -> - c <= v <= c.
Proof. unfold Rabs. destruct (Rcase_abs v); lra. Qed.

(** X18.  The three amounts of the "Total balance" line are rounded
    separately, to one digit: the printed total can differ from the sum of
    the printed electricity and degradation amounts, by at most 0.15. *)
Theorem printed_balance_gap (g : Globals) (a b : R)
    (res : Model2.OptimizeResult) :
  let '(total, electricity, degradation) :=
    Model2.balance_line (Model2.cell6 g a b res) in
  Rabs (total - (electricity + degradation)) <= 0.15.
Proof.
  simpl Model2.balance_line. unfold Model2.cost_charge.
  set (ce := Model2.cost_electricity g (Model2.x res)).
  set (cd := Model2.cost_degradation g a b (Model2.x res)).
  pose proof (py_round_error (ce + cd) 1) as H1.
  pose proof (py_round_error ce 1) as H2.
  pose proof (py_round_error cd 1) as H3.
  replace (/ (2 * 10 ^ 1)) with 0.05 in H1, H2, H3 by (simpl; lra).
  apply Rabs_le_bounds in H1, H2, H3. apply Rabs_le. lra.
Qed.

(** X19.  A negative capacity is not rejected when the constraints are
    built, but it leaves nothing feasible: in Model 2 (deadline after slot
    0) and in Model 1 alike, the lower bound of the first cumulative row
    then exceeds its upper bound. *)
Theorem negative_capacity_infeasible (g : Globals) (p : list R) :
  Q_KWH g < 0 -> (0 < T_MAX g)%nat ->
  ~ Model2.feasible g p /\ ~ Model1.feasible g p.
Proof.
  intros HQ Ht. split.
  - intros [_ [Hlo Hhi]].
    cbn [Model2.lc_lb Model2.lc_ub Model2.lc_A Model2.linear_constraint]
      in Hlo, Hhi.
    apply Forall2_Rle_nth in Hlo. apply Forall2_Rle_nth in Hhi.
    destruct Hlo as [_ Hlo]. destruct Hhi as [_ Hhi].
    rewrite length_lb_soc in Hlo. rewrite length_matvec, length_m in Hhi.
    specialize (Hlo 0%nat ltac:(lia)). specialize (Hhi 0%nat ltac:(lia)).
    rewrite lb_soc_row in Hlo by lia. rewrite ub_soc_row in Hhi by lia.
    rewrite (proj2 (Nat.ltb_lt 0 (T_MAX g)) Ht) in Hlo. nra.
  - intro Hf. apply Model1_feasible_iff in Hf.
    destruct Hf as [_ [_ [_ Hn]]]. specialize (Hn 1%nat ltac:(lia)). nra.
Qed.

Lemma negative_capacity_infeasible_witness :
  let bad := {| ELECTRICITY_COSTS := tarif_bleu;
                STATE_OF_CHARGE_T0 := 0.30;
                STATE_OF_CHARGE_TCH := 0.90;
                Q_KWH := -30;
                CHARGE_POWER_LOWER_BOUND_KWH := -6.6;
                CHARGE_POWER_HIGHER_BOUND_KWH := 6.6;
                T_MIN := 1;
                T_MAX := 22 |} in
  ~ Model2.feasible bad Model2.p0 /\ ~ Model1.feasible bad Model2.p0.
Proof.
  intro bad. apply (negative_capacity_infeasible bad Model2.p0).
  - simpl. lra.
  - simpl. lia.
Defined.

(** X20.  As the notebooks set them up, Model 2 relaxes Model 1: every
    solution that is feasible for the linear program of notebook 08_31 is
    feasible for the problem of notebook 09_02, whose box also admits
    negative powers. *)
Theorem v2g_relaxes_lp (p : list R) :
  Model1.feasible Model1.notebook p -> Model2.feasible Model2.notebook p.
Proof.
  intro Hf.
  apply (feasible_regions_agree Model1.notebook p) in Hf;
    [|simpl; lia|simpl; lia].
  apply Model2_feasible_iff in Hf; [|simpl; lia].
  apply Model2_feasible_iff; [simpl; lia|].
  destruct Hf as [Hl [Hb Hs]]. split; [exact Hl|]. split.
  - intros i Hi. specialize (Hb i Hi).
    unfold Model2.lb_box, Model2.ub_box in *. rewrite !nth_window in Hb.
    rewrite !nth_window.
    change (T_MIN Model2.notebook) with (T_MIN Model1.notebook).
    change (T_MAX Model2.notebook) with (T_MAX Model1.notebook).
    destruct ((i <? T_MIN Model1.notebook)%nat ||
              (T_MAX Model1.notebook <=? i)%nat); simpl in *; lra.
  - intros k Hk. specialize (Hs k Hk).
    rewrite lb_soc_row, ub_soc_row in * by exact Hk. exact Hs.
Qed.

Lemma v2g_relaxes_lp_witness :
  Model2.feasible Model2.notebook
    (py_repeat 0 16 ++ [4.8; 6.6; 6.6] ++ py_repeat 0 5).
Proof.
  apply v2g_relaxes_lp. apply printed_profile_optimal.
Defined.

(** ** The zero-degradation reduction when the deadline is the end of the day *)

Lemma tarif_bleu_nonneg (i : nat) : 0 <= nth i tarif_bleu 0.
Proof.
  destruct (Nat.lt_ge_cases i 24) as [Hi | Hi].
  - do 24 (destruct i as [|i];
           [simpl; unfold LOW_COST, HIGH_COST; lra|]). lia.
  - rewrite nth_overflow by (simpl; lia). lra.
Qed.

(** With [T_MAX = 24], a zero lower power bound and a zero base rate, the
    idle profile is an optimum of Model 2, of cost 0. *)
Lemma full_day_model2_optimum :
  let full_day := {| ELECTRICITY_COSTS := tarif_bleu;
                     STATE_OF_CHARGE_T0 := 0.30;
                     STATE_OF_CHARGE_TCH := 0.90;
                     Q_KWH := 30;
                     CHARGE_POWER_LOWER_BOUND_KWH := 0;
                     CHARGE_POWER_HIGHER_BOUND_KWH := 6.6;
                     T_MIN := 1;
                     T_MAX := 24 |} in
  minimizes (Model2.feasible full_day)
    (Model2.cost_charge full_day 0 Model2.b) (repeat 0 24) /\
  Model2.cost_charge full_day 0 Model2.b (repeat 0 24) = 0.
Proof.
  intro full_day.
  assert (Hzero : Model2.cost_charge full_day 0 Model2.b (repeat 0 24) = 0).
  { rewrite zero_base_rate_cost, cost_electricity_slots.
    apply slot_sum_zero. intros i _. rewrite nth_repeat. ring. }
  split; [|exact Hzero]. split.
  - apply Model2_feasible_iff; [simpl; lia|].
    split; [apply repeat_length|]. split.
    + intros i Hi. rewrite nth_repeat.
      unfold Model2.lb_box, Model2.ub_box. rewrite !nth_window.
      destruct ((i <? T_MIN full_day)%nat || (T_MAX full_day <=? i)%nat);
        simpl; lra.
    + intros k Hk. rewrite lb_soc_row, ub_soc_row by exact Hk.
      rewrite (proj2 (Nat.ltb_lt k (T_MAX full_day))) by (simpl; lia).
      rewrite (slot_sum_zero (S k))
        by (intros i _; apply nth_repeat).
      simpl. lra.
  - intros q Hq. rewrite Hzero.
    apply Model2_feasible_iff in Hq; [|simpl; lia].
    destruct Hq as [Hl [Hb _]].
    rewrite zero_base_rate_cost, cost_electricity_slots, Hl.
    change (Nat.min 24 (length (ELECTRICITY_COSTS full_day))) with 24%nat.
    apply Rle_trans with (slot_sum 24 (fun _ => 0));
      [rewrite slot_sum_zero by reflexivity; lra|].
    apply slot_sum_le. intros i Hi.
    assert (Hpos : 0 <= nth i q 0).
    { specialize (Hb i Hi). unfold Model2.lb_box in Hb.
      rewrite nth_window in Hb.
      destruct ((i <? T_MIN full_day)%nat || (T_MAX full_day <=? i)%nat);
        simpl in Hb; lra. }
    pose proof (tarif_bleu_nonneg i) as Hprice.
    change (ELECTRICITY_COSTS full_day) with tarif_bleu. nra.
Qed.

(** With the same constants, the linear program of Model 1 still has to
    deliver the 18 kWh: the profile that notebook 08_31 prints is an
    optimum of it, of cost 2.4786. *)
Lemma full_day_model1_optimum :
  let full_day := {| ELECTRICITY_COSTS := tarif_bleu;
                     STATE_OF_CHARGE_T0 := 0.30;
                     STATE_OF_CHARGE_TCH := 0.90;
                     Q_KWH := 30;
                     CHARGE_POWER_LOWER_BOUND_KWH := 0;
                     CHARGE_POWER_HIGHER_BOUND_KWH := 6.6;
                     T_MIN := 1;
                     T_MAX := 24 |} in
  let printed := py_repeat 0 16 ++ [4.8; 6.6; 6.6] ++ py_repeat 0 5 in
  minimizes (Model1.feasible full_day) (Model1.objective_value full_day)
    printed /\
  Model1.objective_value full_day printed = 2.4786.
Proof.
  intros full_day printed.
  assert (Hval : Model1.objective_value full_day printed = 2.4786).
  { rewrite objective_value_slots by reflexivity.
    unfold printed. simpl. unfold LOW_COST, HIGH_COST. lra. }
  split; [|exact Hval]. split.
  - apply Model1_feasible_iff. split; [reflexivity|]. split; [|split].
    + intros i Hi. do 24 (destruct i as [|i]; [simpl; lra|]). lia.
    + simpl. lra.
    + intros n [Hn1 Hn2]. destruct n as [|n]; [lia|].
      do 24 (destruct n as [|n]; [simpl; lra|]). lia.
  - intros q Hq. rewrite Hval.
    apply Model1_feasible_iff in Hq. destruct Hq as [Hl [Hb [Hc _]]].
    rewrite objective_value_slots by exact Hl.
    assert (Hpos : forall i, (i < 24)%nat -> 0 <= nth i q 0).
    { intros i Hi. specialize (Hb i Hi). unfold Model1.new_variable in Hb.
      destruct ((i <? T_MIN full_day)%nat || (T_MAX full_day <=? i)%nat);
        simpl in Hb; lra. }
    change (Nat.min (T_MAX full_day) 24) with 24%nat in Hc.
    simpl Q_KWH in Hc. simpl STATE_OF_CHARGE_TCH in Hc.
    simpl STATE_OF_CHARGE_T0 in Hc.
    apply Rle_trans with (slot_sum 24 (fun i => 0.1377 * nth i q 0)).
    + rewrite slot_sum_scal. lra.
    + apply slot_sum_le. intros i Hi.
      specialize (Hpos i Hi).
      pose proof (tarif_bleu_cheapest i Hi) as Hprice.
      change (ELECTRICITY_COSTS full_day) with tarif_bleu. nra.
Qed.

(** C9, at the input where the code departs from it.  Set the base rate
    to zero and the lower power bound to zero as the claim asks, and let
    the deadline be the end of the day, [T_MAX = 24].  The slice
    [lb[T_MAX:]] of notebook 09_02 is then empty, so no row of Model 2
    asks for the target charge, while notebook 08_31 still sums
    [variables[:T_MAX]]: the idle profile is an optimum of Model 2, with
    electricity cost 0, whereas the linear program of Model 1 (which is set
    to minimise) has its optimum at electricity cost 2.4786, and every
    optimum of the one differs in electricity cost from every optimum of
    the other. *)
Theorem zero_degradation_full_day_mismatch :
  let full_day := {| ELECTRICITY_COSTS := tarif_bleu;
                     STATE_OF_CHARGE_T0 := 0.30;
                     STATE_OF_CHARGE_TCH := 0.90;
                     Q_KWH := 30;
                     CHARGE_POWER_LOWER_BOUND_KWH := 0;
                     CHARGE_POWER_HIGHER_BOUND_KWH := 6.6;
                     T_MIN := 1;
                     T_MAX := 24 |} in
  let printed := py_repeat 0 16 ++ [4.8; 6.6; 6.6] ++ py_repeat 0 5 in
  (minimizes (Model2.feasible full_day)
     (Model2.cost_charge full_day 0 Model2.b) (repeat 0 24) /\
   Model2.cost_electricity full_day (repeat 0 24) = 0) /\
  (Model1.obj_minimization (Model1.objective full_day) = true /\
   minimizes (Model1.feasible full_day) (Model1.objective_value full_day)
     printed /\
   Model2.cost_electricity full_day printed = 2.4786) /\
  (forall p1 p2 : list R,
     minimizes (Model1.feasible full_day) (Model1.objective_value full_day)
       p1 ->
     minimizes (Model2.feasible full_day)
       (Model2.cost_charge full_day 0 Model2.b) p2 ->
     Model2.cost_electricity full_day p1 = 2.4786 /\
     Model2.cost_electricity full_day p2 = 0 /\
     Model2.cost_electricity full_day p1 <>
     Model2.cost_electricity full_day p2).
Proof.
  intros full_day printed.
  destruct full_day_model2_optimum as [[F2 O2] Z2].
  destruct full_day_model1_optimum as [[F1 O1] V1].
  fold full_day in F2, O2, Z2, F1, O1, V1. fold printed in F1, O1, V1.
  assert (Hlen : forall p, Model1.feasible full_day p -> length p = 24%nat)
    by (intros p Hp; apply Model1_feasible_iff in Hp; tauto).
  assert (Hobj : forall p, Model1.feasible full_day p ->
            Model1.objective_value full_day p =
            Model2.cost_electricity full_day p).
  { intros p Hp. apply objective_is_cost_electricity;
      [reflexivity | apply Hlen, Hp]. }
  split; [|split].
  - split; [split; assumption|].
    rewrite <- zero_base_rate_cost with (b := Model2.b). exact Z2.
  - split; [reflexivity|]. split; [split; assumption|].
    rewrite <- Hobj by exact F1. exact V1.
  - intros p1 p2 [G1 P1] [G2 P2].
    assert (E1 : Model2.cost_electricity full_day p1 = 2.4786).
    { rewrite <- Hobj by exact G1.
      pose proof (P1 printed F1) as Ha. pose proof (O1 p1 G1) as Hb. lra. }
    assert (E2 : Model2.cost_electricity full_day p2 = 0).
    { rewrite <- zero_base_rate_cost with (b := Model2.b).
      pose proof (P2 (repeat 0 24) F2) as Ha. pose proof (O2 p2 G2) as Hb.
      lra. }
    split; [exact E1|]. split; [exact E2|]. rewrite E1, E2. lra.
Qed.

Lemma zero_degradation_full_day_mismatch_witness :
  let full_day := {| ELECTRICITY_COSTS := tarif_bleu;
                     STATE_OF_CHARGE_T0 := 0.30;
                     STATE_OF_CHARGE_TCH := 0.90;
                     Q_KWH := 30;
                     CHARGE_POWER_LOWER_BOUND_KWH := 0;
                     CHARGE_POWER_HIGHER_BOUND_KWH := 6.6;
                     T_MIN := 1;
                     T_MAX := 24 |} in
  Model2.cost_electricity full_day
    (py_repeat 0 16 ++ [4.8; 6.6; 6.6] ++ py_repeat 0 5) <>
  Model2.cost_electricity full_day (repeat 0 24).
Proof.
  intro full_day.
  destruct zero_degradation_full_day_mismatch as [[M2 _] [[_ [M1 _]] Hall]].
  apply (Hall _ _ M1 M2).
Defined.
